(** * The dash-lang bytecode VM: instruction codec, value tagging and
      execution, checked against the repository's natural-language spec.

    Sources embedded here:
    - [src/vm/opcodes.h]: the opcode enumeration, the extraction macros
      [get_opcode], [get_arg_r0], [get_arg_r1], [get_arg_r2], [get_arg_i]
      and the construction macros [instr_ri], [instr_rrr], [op_*].
    - [src/vm/spec/vm_spec.c]: the test programs and constant tables; they
      are replayed on the model of the machine as examples.

    [vm.h] and [vm.c] (the value tagging macros and [vm_execute]) are not
    among the sources; what the development needs of them is modelled from
    the spec and marked as such. *)

From stdpp Require Import base list numbers.
From Stdlib Require Import ZArith Lia.

Local Open Scope Z_scope.

(** ** Instruction codec ([src/vm/opcodes.h]) *)

Module Codec.

(** [typedef enum { OP_HALT = 0, ... OP_MATCH = 13 } vm_opcode;] *)
Inductive vm_opcode : Set :=
| OP_HALT | OP_LOADi | OP_LOADs | OP_LOADsd | OP_LOADc
| OP_ADD | OP_SUB | OP_MOVE
| OP_CALL | OP_CALLCL | OP_RET | OP_MAKECL
| OP_JMP | OP_MATCH.

Definition opcode_code (op : vm_opcode) : Z :=
  match op with
  | OP_HALT => 0 | OP_LOADi => 1 | OP_LOADs => 2 | OP_LOADsd => 3
  | OP_LOADc => 4 | OP_ADD => 5 | OP_SUB => 6 | OP_MOVE => 7
  | OP_CALL => 8 | OP_CALLCL => 9 | OP_RET => 10 | OP_MAKECL => 11
  | OP_JMP => 12 | OP_MATCH => 13
  end.

(** The inverse of the enumeration: the codes 14 and 15 name no opcode. *)
Definition opcode_of_code (c : Z) : option vm_opcode :=
  match c with
  | 0 => Some OP_HALT | 1 => Some OP_LOADi | 2 => Some OP_LOADs
  | 3 => Some OP_LOADsd | 4 => Some OP_LOADc | 5 => Some OP_ADD
  | 6 => Some OP_SUB | 7 => Some OP_MOVE | 8 => Some OP_CALL
  | 9 => Some OP_CALLCL | 10 => Some OP_RET | 11 => Some OP_MAKECL
  | 12 => Some OP_JMP | 13 => Some OP_MATCH
  | _ => None
  end.

(** Modelled from the spec: [vm_instruction] is declared in [vm.h], which is
    missing; the spec fixes the instruction word at 32 bits, so
    [instr_size = sizeof(vm_instruction) * 8 = 32]. *)
Definition instr_size : Z := 32.

(** [#define __regb 5] and [#define __opcb 4]. *)
Definition __regb : Z := 5.
Definition __opcb : Z := 4.

(** Arithmetic on instruction words: C evaluates the macros on 32-bit
    integers, so a sum or a left shift keeps the low 32 bits. *)
Definition wrap32 (x : Z) : Z := x mod 2 ^ instr_size.
Definition shl32 (x n : Z) : Z := wrap32 (Z.shiftl x n).
Definition add32 (x y : Z) : Z := wrap32 (x + y).

(** [#define get_opcode(instr) ((instr & 0xF0000000) >> (instr_size - __opcb))] *)
Definition get_opcode (instr : Z) : Z :=
  Z.shiftr (Z.land instr 0xF0000000) (instr_size - __opcb).

(** [#define get_arg_r0(instr) ((instr & 0x0F800000) >> (instr_size - (__opcb + __regb)))] *)
Definition get_arg_r0 (instr : Z) : Z :=
  Z.shiftr (Z.land instr 0x0F800000) (instr_size - (__opcb + __regb)).

(** [#define get_arg_r1(instr) ((instr & 0x001F0000) >> (instr_size - (__opcb + 2 * __regb)))] *)
Definition get_arg_r1 (instr : Z) : Z :=
  Z.shiftr (Z.land instr 0x001F0000) (instr_size - (__opcb + 2 * __regb)).

(** [#define get_arg_r2(instr) ((instr & 0x0000F800) >> (instr_size - (__opcb + 3 * __regb)))] *)
Definition get_arg_r2 (instr : Z) : Z :=
  Z.shiftr (Z.land instr 0x0000F800) (instr_size - (__opcb + 3 * __regb)).

(** [#define get_arg_i(instr) (instr & 0x007FFFFF)] *)
Definition get_arg_i (instr : Z) : Z := Z.land instr 0x007FFFFF.

(** [#define instr_ri(op, reg, i) ((op << (instr_size - __opcb)) +
      (reg << (instr_size - (__opcb + __regb))) + i)] *)
Definition instr_ri (op reg i : Z) : Z :=
  add32 (add32 (shl32 op (instr_size - __opcb))
               (shl32 reg (instr_size - (__opcb + __regb))))
        i.

(** [#define instr_rrr(op, reg0, reg1, reg2) ((op << (instr_size - __opcb)) +
      (reg0 << (instr_size - (__opcb + __regb))) +
      (reg1 << (instr_size - (__opcb + 2 * __regb))) +
      (reg2 << (instr_size - (__opcb + 3 * __regb))))] *)
Definition instr_rrr (op reg0 reg1 reg2 : Z) : Z :=
  add32 (add32 (add32 (shl32 op (instr_size - __opcb))
                      (shl32 reg0 (instr_size - (__opcb + __regb))))
               (shl32 reg1 (instr_size - (__opcb + 2 * __regb))))
        (shl32 reg2 (instr_size - (__opcb + 3 * __regb))).

(** The [op_*] constructors used by the tests. *)
Definition op_loadi (r0 i : Z) : Z := instr_ri (opcode_code OP_LOADi) r0 i.
Definition op_loads (r0 i : Z) : Z := instr_ri (opcode_code OP_LOADs) r0 i.
Definition op_loadsd (r0 i : Z) : Z := instr_ri (opcode_code OP_LOADsd) r0 i.
Definition op_loadc (r0 i : Z) : Z := instr_ri (opcode_code OP_LOADc) r0 i.
Definition op_add (r0 r1 r2 : Z) : Z := instr_rrr (opcode_code OP_ADD) r0 r1 r2.
Definition op_sub (r0 r1 r2 : Z) : Z := instr_rrr (opcode_code OP_SUB) r0 r1 r2.
Definition op_halt : Z := instr_ri (opcode_code OP_HALT) 0 0.
Definition op_move (r0 r1 : Z) : Z := instr_rrr (opcode_code OP_MOVE) r0 r1 0.
Definition op_call (r0 fr n : Z) : Z := instr_rrr (opcode_code OP_CALL) r0 fr n.
Definition op_callcl (r0 fr n : Z) : Z := instr_rrr (opcode_code OP_CALLCL) r0 fr n.
Definition op_ret : Z := instr_ri (opcode_code OP_RET) 0 0.
Definition op_makecl (r0 fr n : Z) : Z := instr_rrr (opcode_code OP_MAKECL) r0 fr n.
Definition op_jmp (n : Z) : Z := instr_ri (opcode_code OP_JMP) 0 n.
Definition op_match (r1 r2 r3 : Z) : Z := instr_rrr (opcode_code OP_MATCH) r1 r2 r3.

End Codec.

Import Codec.

#[global] Arguments get_opcode : simpl never.
#[global] Arguments get_arg_r0 : simpl never.
#[global] Arguments get_arg_r1 : simpl never.
#[global] Arguments get_arg_r2 : simpl never.
#[global] Arguments get_arg_i : simpl never.
#[global] Arguments instr_ri : simpl never.
#[global] Arguments instr_rrr : simpl never.

(** ** Values and faults *)

(** Modelled from the spec: the fault kinds of section 7; the type itself
    lives in the missing [vm.h]/[vm.c]. *)
Inductive fault : Set :=
| EncodingError | TypeError | TagMismatch | StackOverflow | StackUnderflow
| NoMatchingCase | IndexOutOfRange.

(** Fallible operations return a value or a fault. *)
Inductive result (A : Type) : Type :=
| Ok (a : A)
| Err (f : fault).
Arguments Ok {A} a.
Arguments Err {A} f.

Definition result_bind {A B : Type} (m : result A) (k : A -> result B) : result B :=
  match m with
  | Ok a => k a
  | Err f => Err f
  end.

Notation "x <- m ;; k" := (result_bind m (fun x => k))
  (at level 100, m at next level, right associativity).

(** Modelled from the spec: [vm_value] is declared in the missing [vm.h].
    Section 3 gives a Value as a tagged datum: a number, a symbol, a data
    symbol, a closure, or one of the three markers that occur only in the
    constant pool. *)
#[warnings="-register-all"]
Inductive vm_value : Type :=
| Number (payload : Z)
| Symbol (payload : Z)
| DataSymbol (payload : Z)
| Closure (entry : nat) (captured : list vm_value)
| MatchHeader (n : nat)
| DataSymbolHeader (arity : nat) (tag : Z)
| MatchVar (slot : nat).

(** The constant-table macros of the tests. [data_symbol_header(1, 2)] is
    followed by two fields in every table of [vm_spec.c], so its second
    argument is the arity. *)
Definition match_header (n : nat) : vm_value := MatchHeader n.
Definition data_symbol_header (tag : Z) (arity : nat) : vm_value :=
  DataSymbolHeader arity tag.
Definition match_var (slot : nat) : vm_value := MatchVar slot.

(** ** Value tagging *)

Module Tagging.

(** The tags and types named by the tests. *)
Inductive vm_tag : Set := vm_tag_number | vm_tag_symbol | vm_tag_data_symbol.

Inductive vm_type : Set :=
| vm_type_invalid | vm_type_number | vm_type_symbol | vm_type_data_symbol.

Definition type_of_tag (t : vm_tag) : vm_type :=
  match t with
  | vm_tag_number => vm_type_number
  | vm_tag_symbol => vm_type_symbol
  | vm_tag_data_symbol => vm_type_data_symbol
  end.

Section Packing.

(** Modelled from the spec: a [vm_value] is a single integer that packs a
    tag and a payload (section 9; the tests compare results with plain
    integers). [vm.h] is missing and the spec gives no widths and no tag
    values, so the layout is a parameter: the integer has [value_bits]
    bits, the payload the lowest [payload_bits] of them, the tag the bits
    above, and [tag_code] gives the value of each tag. *)
Variable value_bits : Z.
Variable payload_bits : Z.
Variable tag_code : vm_tag -> Z.

(** The layout is usable: the payload field lies within the integer, every
    tag fits the bits above it, and different tags have different
    values. *)
Definition layout_ok : Prop :=
  0 <= payload_bits <= value_bits
  /\ (forall t, 0 <= tag_code t < 2 ^ (value_bits - payload_bits))
  /\ (forall t t', tag_code t = tag_code t' -> t = t').

Definition representable (payload : Z) : Prop :=
  0 <= payload < 2 ^ payload_bits.

(** Modelled from the spec: [val(payload, tag)] of the missing [vm.h], the
    spec's [pack]: the tag shifted above the payload field, or-ed with the
    payload, in an integer of [value_bits] bits. The payload is not cut
    to its field: one that is not representable spills into the tag. *)
Definition val (payload : Z) (t : vm_tag) : Z :=
  Z.land (Z.lor (Z.shiftl (tag_code t) payload_bits) payload)
         (Z.ones value_bits).

(** The two fields of a packed value. *)
Definition tag_field (v : Z) : Z := Z.shiftr v payload_bits.
Definition payload_field (v : Z) : Z := Z.land v (Z.ones payload_bits).

(** Modelled from the spec: the spec's [tag_of]: the tag whose value the
    tag field holds, if any. *)
Definition tag_of_value (v : Z) : option vm_tag :=
  if tag_field v =? tag_code vm_tag_number then Some vm_tag_number
  else if tag_field v =? tag_code vm_tag_symbol then Some vm_tag_symbol
  else if tag_field v =? tag_code vm_tag_data_symbol
       then Some vm_tag_data_symbol
  else None.

(** Modelled from the spec: [type_of_value] of the missing [vm.h]. *)
Definition type_of_value (v : Z) : vm_type :=
  match tag_of_value v with
  | Some t => type_of_tag t
  | None => vm_type_invalid
  end.

(** Modelled from the spec: [from_val(v, tag)] of the missing [vm.h], the
    spec's [unpack]: the payload field, or [TagMismatch] when the tag
    field of [v] does not hold [tag]. *)
Definition from_val (v : Z) (t : vm_tag) : result Z :=
  if tag_field v =? tag_code t then Ok (payload_field v)
  else Err TagMismatch.

(** The integer that a scalar value of the machine is under the layout;
    closures and pool markers are not covered by the tags of the tests. *)
Definition word_of (v : vm_value) : option Z :=
  match v with
  | Number p => Some (val p vm_tag_number)
  | Symbol p => Some (val p vm_tag_symbol)
  | DataSymbol p => Some (val p vm_tag_data_symbol)
  | _ => None
  end.

End Packing.

(** A layout for examples: 32 bits, 28 of them payload, the tags numbered
    from 0. *)
Definition example_tag_code (t : vm_tag) : Z :=
  match t with
  | vm_tag_number => 0
  | vm_tag_symbol => 1
  | vm_tag_data_symbol => 2
  end.

End Tagging.

(** ** The machine *)

Module VM.

Local Open Scope nat_scope.

(** Modelled from the spec: a frame has at least 32 registers; register
    operands are 5 bits wide, so 32 are addressable and the model has
    exactly those. *)
Definition NUM_REGS : nat := 32.

(** Modelled from the spec: what a register holds before anything is written
    to it; section 4.4 leaves it "default/undefined", the model takes the
    number 0. *)
Definition default_value : vm_value := Number 0.

(** Modelled from the spec: the register frame of section 3, a register
    bank with the return address and the caller's result register. *)
Record frame : Type := Frame {
  regs : list vm_value;
  return_address : nat;
  result_register : nat
}.

(** Modelled from the spec: the execution state of section 4.3, the frame
    stack and the program counter. The stack is never empty: [cur] is its
    top and [callers] the frames below it, the outermost one last. *)
Record vm_state : Type := State {
  cur : frame;
  callers : list frame;
  pc : nat
}.

(** Modelled from the spec: the outermost frame, the one execution started
    in; its register 0 is the result of the program (sections 2 and 4.3). *)
Definition outermost (st : vm_state) : frame :=
  List.last (callers st) (cur st).

(** The number of frames on the stack. *)
Definition depth (st : vm_state) : nat := S (length (callers st)).

(** Modelled from the spec: execution starts at index 0 of the outermost
    call (section 3). *)
Definition initial_state : vm_state :=
  {| cur := {| regs := replicate NUM_REGS default_value;
               return_address := 0; result_register := 0 |};
     callers := [];
     pc := 0 |}.

(** Modelled from the spec: register and pool access; by section 7 an index
    outside the bounds is an [IndexOutOfRange] fault. *)
Definition get_reg (rs : list vm_value) (i : nat) : result vm_value :=
  match rs !! i with
  | Some v => Ok v
  | None => Err IndexOutOfRange
  end.

(** Writing a register: in place, within the register bank. *)
Definition set_reg (rs : list vm_value) (i : nat) (v : vm_value)
  : result (list vm_value) :=
  if i <? NUM_REGS then Ok (<[i:=v]> rs) else Err IndexOutOfRange.

(** Reading the constant pool at an absolute position. *)
Definition get_const (pool : list vm_value) (i : nat) : result vm_value :=
  match pool !! i with
  | Some v => Ok v
  | None => Err IndexOutOfRange
  end.

(** Modelled from the spec: a payload used as an address into the program or
    the pool. *)
Definition to_index (z : Z) : result nat :=
  if (z <? 0)%Z then Err IndexOutOfRange else Ok (Z.to_nat z).

(** Modelled from the spec: the payload of a number; any other value where a
    number is due is a [TypeError] (sections 4.2 and 7). *)
Definition number_payload (v : vm_value) : result Z :=
  match v with
  | Number p => Ok p
  | _ => Err TypeError
  end.

(** Modelled from the spec: the registers [first .. first + n - 1], in
    order; the arguments of a call and the values a closure captures
    (section 4.4). *)
Fixpoint read_regs (rs : list vm_value) (first n : nat) : result (list vm_value) :=
  match n with
  | O => Ok []
  | S n' =>
      v <- get_reg rs first;;
      vs <- read_regs rs (S first) n';;
      Ok (v :: vs)
  end.

(** Modelled from the spec: the register bank of a new frame (section 4.4):
    register 0 is left at its default, [vals] fill the registers from 1
    on. *)
Definition frame_regs (vals : list vm_value) : result (list vm_value) :=
  if S (length vals) <=? NUM_REGS
  then Ok (default_value :: vals
             ++ replicate (NUM_REGS - S (length vals)) default_value)
  else Err IndexOutOfRange.

(** *** Pattern matching *)

Inductive match_result : Type :=
| MatchOk (rs : list vm_value)
| NoMatch (rs : list vm_value)
| MatchFault (f : fault).

(** Modelled from the spec: the header of the compound record a data symbol
    refers to, if its payload is the pool position of one. In the tables of
    [vm_spec.c] a case pattern [val(3, vm_tag_data_symbol)] stands for the
    record whose [data_symbol_header] is at position 3, and the subject
    loaded by [op_loadsd(1, 9)] for the record at position 9. *)
Definition pool_header (pool : list vm_value) (p : Z) : option (nat * Z) :=
  if (p <? 0)%Z then None
  else match pool !! Z.to_nat p with
       | Some (DataSymbolHeader arity tag) => Some (arity, tag)
       | _ => None
       end.

(** Modelled from the spec: [n] field patterns from pool position [pp] on
    against the fields from position [sp] on, left to right, stopping at the
    first that does not match (section 4.5, compound patterns). *)
Fixpoint match_fields
    (mv : vm_value -> vm_value -> list vm_value -> option match_result)
    (pool : list vm_value) (n pp sp : nat) (rs : list vm_value)
  : option match_result :=
  match n with
  | O => Some (MatchOk rs)
  | S n' =>
      match pool !! pp, pool !! sp with
      | Some fp, Some fs =>
          match mv fp fs rs with
          | Some (MatchOk rs') => match_fields mv pool n' (S pp) (S sp) rs'
          | other => other
          end
      | _, _ => Some (MatchFault IndexOutOfRange)
      end
  end.

(** Modelled from the spec: the pattern matcher of section 4.5 (the missing
    [vm.c]). [base] is the register base of the bindings. A number or symbol
    pattern matches the equal value; a data symbol whose payload locates a
    [DataSymbolHeader] in the pool is a compound pattern and matches a
    compound subject of the same tag and arity, field by field; any other
    data symbol is a scalar; a [MatchVar] matches everything and writes the
    subject into register [base + slot]. The matcher recurses into nested
    records, so it takes fuel; [None] is fuel exhausted. *)
Fixpoint match_value (fuel : nat) (pool : list vm_value) (base : nat)
    (pat subj : vm_value) (rs : list vm_value) {struct fuel}
  : option match_result :=
  match fuel with
  | O => None
  | S fuel' =>
      match pat with
      | MatchVar slot =>
          Some (match set_reg rs (base + slot) subj with
                | Ok rs' => MatchOk rs'
                | Err f => MatchFault f
                end)
      | Number a =>
          Some (match subj with
                | Number b => if (a =? b)%Z then MatchOk rs else NoMatch rs
                | _ => NoMatch rs
                end)
      | Symbol a =>
          Some (match subj with
                | Symbol b => if (a =? b)%Z then MatchOk rs else NoMatch rs
                | _ => NoMatch rs
                end)
      | DataSymbol p =>
          match pool_header pool p with
          | Some (arity, tag) =>
              match subj with
              | DataSymbol s =>
                  match pool_header pool s with
                  | Some (arity', tag') =>
                      if (arity =? arity') && (tag =? tag')%Z
                      then match_fields (match_value fuel' pool base) pool arity
                                        (S (Z.to_nat p)) (S (Z.to_nat s)) rs
                      else Some (NoMatch rs)
                  | None => Some (NoMatch rs)
                  end
              | _ => Some (NoMatch rs)
              end
          | None =>
              Some (match subj with
                    | DataSymbol s => if (p =? s)%Z then MatchOk rs else NoMatch rs
                    | _ => NoMatch rs
                    end)
          end
      | Closure _ _ | MatchHeader _ | DataSymbolHeader _ _ =>
          Some (MatchFault TypeError)
      end
  end.

Inductive case_result : Type :=
| CaseMatched (i : nat) (rs : list vm_value)
| CaseNone (rs : list vm_value)
| CaseFault (f : fault).

(** Modelled from the spec: the cases [i, i+1, ...] ([n] of them) of the
    table at pool position [table], tried in table order; the first that
    matches is selected (section 4.5). *)
Fixpoint try_cases
    (mv : vm_value -> vm_value -> list vm_value -> option match_result)
    (pool : list vm_value) (table : nat) (subj : vm_value)
    (n i : nat) (rs : list vm_value) : option case_result :=
  match n with
  | O => Some (CaseNone rs)
  | S n' =>
      match pool !! (table + 1 + i) with
      | None => Some (CaseFault IndexOutOfRange)
      | Some pat =>
          match mv pat subj rs with
          | None => None
          | Some (MatchOk rs') => Some (CaseMatched i rs')
          | Some (NoMatch rs') => try_cases mv pool table subj n' (S i) rs'
          | Some (MatchFault f) => Some (CaseFault f)
          end
      end
  end.

(** *** Execution *)

(** Modelled from the spec: the two final states of section 4.3; a fault
    carries the program counter at which it occurred. *)
Inductive vm_result : Type :=
| Halted (v : vm_value)
| Faulted (f : fault) (at_pc : nat).

Inductive outcome : Type :=
| Next (st : vm_state)
| Halt (v : vm_value).

Inductive step_result : Type :=
| Running (st : vm_state)
| Stopped (r : vm_result).

Definition with_regs (st : vm_state) (rs : list vm_value) : vm_state :=
  {| cur := {| regs := rs;
               return_address := return_address (cur st);
               result_register := result_register (cur st) |};
     callers := callers st;
     pc := pc st |}.

Definition jump (st : vm_state) (target : nat) : vm_state :=
  {| cur := cur st; callers := callers st; pc := target |}.

(** Modelled from the spec: write a register of the current frame and go on
    to the next instruction (section 4.3: the program counter advances by 1
    unless the instruction sets it). *)
Definition load (st : vm_state) (r : nat) (v : vm_value) : result outcome :=
  rs <- set_reg (regs (cur st)) r v;;
  Ok (Next (jump (with_regs st rs) (S (pc st)))).

(** Modelled from the spec: the integer a register holds, used as an address
    (the callable address of CALL and MAKECL, the table of MATCH). *)
Definition address_in (rs : list vm_value) (r : nat) : result nat :=
  v <- get_reg rs r;;
  a <- number_payload v;;
  to_index a.


(** What LOADsd loads by the test [loads_a_data_symbol] of [vm_spec.c]: the
    index tagged as a data symbol. On an empty constant table
    [op_loadsd(0, 1)] gives [val(1, vm_tag_data_symbol)]. *)
Definition loadsd_tagged_index (pool : list vm_value) (i : Z)
  : result vm_value :=
  Ok (DataSymbol i).

Section Machine.

(** What LOADsd loads for a constant pool and an immediate: the machine
    is stated for either reading, and the tests are run with the one they
    require. *)
Variable loadsd : list vm_value -> Z -> result vm_value.

(** The configurable bound on the depth of the frame stack, the program and
    the constant pool. *)
Variable max_depth : nat.
Variable program : list Z.
Variable pool : list vm_value.

(** Modelled from the spec: a call (section 4.4). The new frame holds [vals]
    from register 1 on, returns to the instruction after the call and
    delivers its result to [r0]; a call beyond the depth bound is a
    [StackOverflow] (section 5). *)
Definition push_frame (st : vm_state) (r0 entry : nat) (vals : list vm_value)
  : result outcome :=
  if max_depth <=? depth st then Err StackOverflow
  else
    rs <- frame_regs vals;;
    Ok (Next {| cur := {| regs := rs;
                          return_address := S (pc st);
                          result_register := r0 |};
                callers := cur st :: callers st;
                pc := entry |}).

(** Modelled from the spec: the effect of one decoded instruction, from the
    table of section 4.3 and from sections 4.4 and 4.5 (the missing [vm.c]).
    [LOADsd] stores what [loadsd] gives for the pool and the immediate. *)
Definition exec (mfuel : nat) (st : vm_state) (w : Z) (op : vm_opcode)
  : option (result outcome) :=
  let r0 := Z.to_nat (get_arg_r0 w) in
  let r1 := Z.to_nat (get_arg_r1 w) in
  let r2 := Z.to_nat (get_arg_r2 w) in
  let i := get_arg_i w in
  let rs := regs (cur st) in
  match op with
  | OP_HALT =>
      Some (v <- get_reg (regs (outermost st)) 0;; Ok (Halt v))
  | OP_LOADi => Some (load st r0 (Number i))
  | OP_LOADs => Some (load st r0 (Symbol i))
  | OP_LOADsd => Some (v <- loadsd pool i;; load st r0 v)
  | OP_LOADc => Some (c <- get_const pool (Z.to_nat i);; load st r0 c)
  | OP_ADD =>
      Some (a <- (v <- get_reg rs r1;; number_payload v);;
            b <- (v <- get_reg rs r2;; number_payload v);;
            load st r0 (Number (a + b)))
  | OP_SUB =>
      Some (a <- (v <- get_reg rs r1;; number_payload v);;
            b <- (v <- get_reg rs r2;; number_payload v);;
            load st r0 (Number (a - b)))
  | OP_MOVE => Some (v <- get_reg rs r1;; load st r0 v)
  | OP_JMP => Some (Ok (Next (jump st (pc st + 1 + Z.to_nat i))))
  | OP_CALL =>
      Some (entry <- address_in rs r1;;
            args <- read_regs rs (S r1) r2;;
            push_frame st r0 entry args)
  | OP_CALLCL =>
      Some (v <- get_reg rs r1;;
            match v with
            | Closure entry captured =>
                args <- read_regs rs (S r1) r2;;
                push_frame st r0 entry (args ++ captured)
            | _ => Err TypeError
            end)
  | OP_RET =>
      Some (match callers st with
            | [] => Err StackUnderflow
            | caller :: rest =>
                v <- get_reg rs 0;;
                crs <- set_reg (regs caller) (result_register (cur st)) v;;
                Ok (Next {| cur := {| regs := crs;
                                      return_address := return_address caller;
                                      result_register := result_register caller |};
                            callers := rest;
                            pc := return_address (cur st) |})
            end)
  | OP_MAKECL =>
      Some (entry <- address_in rs r1;;
            caps <- read_regs rs (S r1) r2;;
            load st r0 (Closure entry caps))
  | OP_MATCH =>
      match (subj <- get_reg rs r0;;
             table <- address_in rs r1;;
             h <- get_const pool table;;
             match h with
             | MatchHeader n => Ok (subj, table, n)
             | _ => Err TypeError
             end) with
      | Err f => Some (Err f)
      | Ok (subj, table, n) =>
          match try_cases (match_value mfuel pool r2) pool table subj n 0 rs with
          | None => None
          | Some (CaseMatched k rs') =>
              Some (Ok (Next (jump (with_regs st rs') (pc st + 1 + k))))
          | Some (CaseNone _) => Some (Err NoMatchingCase)
          | Some (CaseFault f) => Some (Err f)
          end
      end
  end.

(** Modelled from the spec: one turn of the fetch-decode-execute cycle of
    section 4.3. A fault stops the machine with the program counter at
    which it occurred. [None] is no result: the matcher ran out of fuel, or
    the program counter is outside the program, where the spec defines
    nothing and the machine, which is handed the program without its
    length ([vm_execute(program, const_table)]), can detect nothing. *)
Definition step (mfuel : nat) (st : vm_state) : option step_result :=
  match program !! pc st with
  | None => None
  | Some w =>
      match opcode_of_code (get_opcode w) with
      | None => Some (Stopped (Faulted EncodingError (pc st)))
      | Some op =>
          match exec mfuel st w op with
          | None => None
          | Some (Ok (Next st')) => Some (Running st')
          | Some (Ok (Halt v)) => Some (Stopped (Halted v))
          | Some (Err f) => Some (Stopped (Faulted f (pc st)))
          end
      end
  end.

(** Modelled from the spec: the execution loop of section 4.3, at most
    [fuel] instructions; [None] is no result within the fuel. *)
Fixpoint run (mfuel fuel : nat) (st : vm_state) : option vm_result :=
  match fuel with
  | O => None
  | S fuel' =>
      match step mfuel st with
      | None => None
      | Some (Stopped r) => Some r
      | Some (Running st') => run mfuel fuel' st'
      end
  end.

(** Modelled from the spec: [vm_execute(program, const_table)] of the
    missing [vm.c], started on a fresh outermost frame at instruction 0. *)
Definition vm_execute (fuel : nat) : option vm_result :=
  run fuel fuel initial_state.

(** The states the machine passes through. *)
Inductive steps : vm_state -> vm_state -> Prop :=
| steps_refl st : steps st st
| steps_step mfuel st st' st'' :
    step mfuel st = Some (Running st') -> steps st' st'' -> steps st st''.

End Machine.

(** The state after [n] instructions, if the machine is still running. *)
Fixpoint state_after (loadsd : list vm_value -> Z -> result vm_value)
    (max_depth : nat) (program : list Z) (pool : list vm_value)
    (mfuel n : nat) (st : vm_state) : option vm_state :=
  match n with
  | O => Some st
  | S n' =>
      match step loadsd max_depth program pool mfuel st with
      | Some (Running st') =>
          state_after loadsd max_depth program pool mfuel n' st'
      | _ => None
      end
  end.

(** The result of an instruction whose matcher returned. *)
Definition unwrap_exec (o : option (result outcome)) : result outcome :=
  match o with
  | Some r => r
  | None => Err TypeError
  end.

(** *** Well-formed inputs and states *)






(** *** Outcomes of a single case, whatever the registers hold *)



(** A field pattern that leaves the register bound by [MatchVar slot]
    alone: a number, a symbol, or a variable of another slot. *)
Definition keeps_slot (slot : nat) (fp : vm_value) : bool :=
  match fp with
  | Number _ | Symbol _ => true
  | MatchVar s => negb (s =? slot)
  | _ => false
  end.


(** *** A measure of the work left *)




End VM.

Import VM.

(** ** The programs and constant tables of [src/vm/spec/vm_spec.c] *)

Module Tests.

Local Open Scope Z_scope.

Definition loads_a_number_into_a_register : list Z :=
  [op_loadi 0 55; op_halt].

Definition adds_two_numbers : list Z :=
  [op_loadi 1 5; op_loadi 2 32; op_add 0 1 2; op_halt].

Definition moves_a_register : list Z :=
  [op_loadi 2 37; op_move 0 2; op_halt].

Definition directly_calls_a_function : list Z :=
  [op_loadi 1 15; op_loadi 2 23; op_add 4 1 2; op_loadi 3 6;
   op_call 0 3 1; op_halt;
   op_loadi 2 100; op_add 0 1 2; op_ret].

Definition calls_a_closure_downwards : list Z :=
  [op_loadi 2 11; op_loadi 3 80; op_makecl 2 2 1; op_loadi 1 6;
   op_call 0 1 1; op_halt;
   op_loadi 2 115; op_loadi 3 23; op_add 2 2 3; op_callcl 0 1 1; op_ret;
   op_sub 0 1 2; op_ret].

Definition calls_a_closure_upwards : list Z :=
  [op_loadi 1 5; op_call 1 1 1; op_loadi 2 80; op_callcl 0 1 1; op_halt;
   op_loadi 1 9; op_loadi 2 24; op_makecl 0 1 1; op_ret;
   op_sub 0 1 2; op_ret].

Definition loads_a_symbol_into_a_register : list Z :=
  [op_loads 0 12; op_halt].

Definition loads_a_constant : list Z := [op_loadc 0 0; op_halt].
Definition loads_a_constant_table : list vm_value := [Symbol 33].

Definition loads_a_data_symbol : list Z := [op_loadsd 0 1; op_halt].
Definition loads_a_data_symbol_table : list vm_value := [].

Definition jumps_forward : list Z :=
  [op_loadi 0 66; op_jmp 1; op_halt; op_loadi 0 70; op_halt].

Definition matches_a_number : list Z :=
  [op_loadi 0 600; op_loadi 1 22; op_loadi 2 0; op_match 1 2 0;
   op_jmp 1; op_jmp 2; op_loadi 0 4; op_halt; op_loadi 0 300; op_halt].
Definition matches_a_number_table : list vm_value :=
  [match_header 2; Number 11; Number 22].

Definition matches_a_symbol : list Z :=
  [op_loadi 0 600; op_loads 1 22; op_loadi 2 0; op_match 1 2 0;
   op_jmp 1; op_jmp 2; op_loadi 0 4; op_halt; op_loadi 0 300; op_halt].
Definition matches_a_symbol_table : list vm_value :=
  [match_header 2; Symbol 11; Symbol 22].

Definition matches_a_data_symbol : list Z :=
  [op_loadi 0 600; op_loadsd 1 9; op_loadi 2 0; op_match 1 2 0;
   op_jmp 1; op_jmp 2; op_loadi 0 4; op_halt; op_loadi 0 300; op_halt].
Definition matches_a_data_symbol_table : list vm_value :=
  [match_header 2; DataSymbol 3; DataSymbol 6;
   data_symbol_header 1 2; Number 55; Number 66;
   data_symbol_header 1 2; Number 55; Number 77;
   data_symbol_header 1 2; Number 55; Number 77].

Definition binds_a_value_in_a_match : list Z :=
  [op_loadi 0 600; op_loadi 4 66; op_loadsd 1 9; op_loadi 2 0;
   op_match 1 2 3; op_jmp 1; op_jmp 2;
   op_loadi 0 22; op_halt; op_move 0 4; op_halt].
Definition binds_a_value_in_a_match_table : list vm_value :=
  [match_header 2; DataSymbol 3; DataSymbol 6;
   data_symbol_header 1 2; Number 55; Number 66;
   data_symbol_header 1 2; Number 55; match_var 1;
   data_symbol_header 1 2; Number 55; Number 77].

(** The depth bound and the fuel the examples are run with; LOADsd is
    taken as the tests require it ([loadsd_tagged_index]). *)
Definition test_depth : nat := 255%nat.
Definition test_fuel : nat := 64%nat.

(** The state a test program is in after [n] instructions. *)
Definition state_at (program : list Z) (pool : list vm_value) (n : nat)
  : vm_state :=
  match state_after loadsd_tagged_index test_depth program pool 2 n
                    initial_state with
  | Some st => st
  | None => initial_state
  end.


(** [binds_a_value_in_a_match] about to execute its MATCH. *)
Definition binds_a_value_at_match : vm_state :=
  Eval vm_compute in
    state_at binds_a_value_in_a_match binds_a_value_in_a_match_table 4.

(** [directly_calls_a_function] about to execute its CALL, and after it. *)
Definition direct_call_at_call : vm_state :=
  Eval vm_compute in state_at directly_calls_a_function [] 4.
Definition direct_call_in_callee : vm_state :=
  Eval vm_compute in state_at directly_calls_a_function [] 5.

(** [calls_a_closure_upwards]: about to execute MAKECL in the called
    function and after it; then, the function having returned, about to
    execute CALLCL in the outermost frame and after it. *)
Definition closure_up_at_makecl : vm_state :=
  Eval vm_compute in state_at calls_a_closure_upwards [] 4.
Definition closure_up_after_makecl : vm_state :=
  Eval vm_compute in state_at calls_a_closure_upwards [] 5.
Definition closure_up_at_callcl : vm_state :=
  Eval vm_compute in state_at calls_a_closure_upwards [] 7.
Definition closure_up_in_closure : vm_state :=
  Eval vm_compute in state_at calls_a_closure_upwards [] 8.

End Tests.

(** ** Programs beyond the tests

    The tests of [vm_spec.c] keep the second and third register operand of
    every instruction below 8. The first three programs are the tests
    [directly_calls_a_function], [calls_a_closure_upwards] and
    [binds_a_value_in_a_match] moved to registers from 8 on, legal indices
    of the 32 registers of a frame. *)

Module Further.

Import Tests.
Local Open Scope Z_scope.

(** A call whose base register is 9: the function address is in register
    9 and the argument in register 10. Registers 1 and 2, which a base
    register 1 would name, hold the same address and another argument. *)
Definition calls_from_register_9 : list Z :=
  [op_loadi 9 6; op_loadi 10 111; op_loadi 1 6; op_loadi 2 222;
   op_call 0 9 1; op_halt;
   op_move 0 1; op_ret].

(** About to execute the CALL, and after it. *)
Definition calls_from_9_at_call : vm_state :=
  Eval vm_compute in state_at calls_from_register_9 [] 4.
Definition calls_from_9_in_callee : vm_state :=
  Eval vm_compute in state_at calls_from_register_9 [] 5.

(** A function called from the outermost frame makes a closure with base
    register 9: the entry address is in register 9 and the value to
    capture, 24, in register 10; registers 1 and 2 hold the same address
    and the value 7. The function returns the closure, and the outermost
    frame calls it with the argument 80; the closure subtracts the
    captured value from its argument. *)
Definition captures_from_register_9 : list Z :=
  [op_loadi 1 5; op_call 1 1 1; op_loadi 2 80; op_callcl 0 1 1; op_halt;
   op_loadi 9 11; op_loadi 10 24; op_loadi 1 11; op_loadi 2 7;
   op_makecl 0 9 1; op_ret;
   op_sub 0 1 2; op_ret].

(** About to execute MAKECL in the called function and after it; then,
    the function having returned, about to execute CALLCL in the
    outermost frame and after it. *)
Definition captures_from_9_at_makecl : vm_state :=
  Eval vm_compute in state_at captures_from_register_9 [] 6.
Definition captures_from_9_after_makecl : vm_state :=
  Eval vm_compute in state_at captures_from_register_9 [] 7.
Definition captures_from_9_at_callcl : vm_state :=
  Eval vm_compute in state_at captures_from_register_9 [] 9.
Definition captures_from_9_in_closure : vm_state :=
  Eval vm_compute in state_at captures_from_register_9 [] 10.

(** A match whose third operand is 11, so that [match_var 1] names
    register 12. Register 12 holds 5 and register 4 holds 66 before the
    match; the subject, the record at pool position 9, is loaded as a
    constant. *)
Definition binds_into_register_12 : list Z :=
  [op_loadi 0 600; op_loadi 4 66; op_loadi 12 5; op_loadc 1 12;
   op_loadi 2 0;
   op_match 1 2 11; op_jmp 1; op_jmp 2;
   op_loadi 0 22; op_halt; op_move 0 4; op_halt].
Definition binds_into_register_12_table : list vm_value :=
  [match_header 2; DataSymbol 3; DataSymbol 6;
   data_symbol_header 1 2; Number 55; Number 66;
   data_symbol_header 1 2; Number 55; match_var 1;
   data_symbol_header 1 2; Number 55; Number 77;
   DataSymbol 9].

(** About to execute the MATCH, and after it. *)
Definition binds_into_12_at_match : vm_state :=
  Eval vm_compute in
    state_at binds_into_register_12 binds_into_register_12_table 5.
Definition binds_into_12_after_match : vm_state :=
  Eval vm_compute in
    state_at binds_into_register_12 binds_into_register_12_table 6.



End Further.

(** ** The two instruction forms, as the [op_*] macros use them *)

Module Forms.

Import Tests.
Local Open Scope Z_scope.

(** Which construction macro an opcode's [op_*] macro expands to:
    [instr_ri] for [op_loadi], [op_loads], [op_loadsd], [op_loadc],
    [op_halt], [op_ret] and [op_jmp]; [instr_rrr] for the others. *)
Definition is_immediate_form (op : vm_opcode) : bool :=
  match op with
  | OP_LOADi | OP_LOADs | OP_LOADsd | OP_LOADc
  | OP_HALT | OP_RET | OP_JMP => true
  | OP_ADD | OP_SUB | OP_MOVE
  | OP_CALL | OP_CALLCL | OP_MAKECL | OP_MATCH => false
  end.

(** Extract the fields of a word and build it again with the construction
    macro of its opcode. *)
Definition reencode (w : Z) : option Z :=
  match opcode_of_code (get_opcode w) with
  | Some op =>
      Some (if is_immediate_form op
            then instr_ri (get_opcode w) (get_arg_r0 w) (get_arg_i w)
            else instr_rrr (get_opcode w) (get_arg_r0 w)
                           (get_arg_r1 w) (get_arg_r2 w))
  | None => None
  end.

(** The programs of all the tests of [vm_spec.c] that run the machine. *)
Definition all_test_programs : list (list Z) :=
  [loads_a_number_into_a_register; adds_two_numbers; moves_a_register;
   directly_calls_a_function; calls_a_closure_downwards;
   calls_a_closure_upwards; loads_a_symbol_into_a_register;
   loads_a_constant; loads_a_data_symbol; jumps_forward;
   matches_a_number; matches_a_symbol; matches_a_data_symbol;
   binds_a_value_in_a_match].

End Forms.

Section CodecFacts.

Local Open Scope Z_scope.

(** Drop the wrap-arounds that the operand ranges make vacuous. *)
Ltac drop_wraps :=
  unfold add32, shl32, wrap32, instr_size, __opcb, __regb;
  rewrite ?Z.shiftl_mul_pow2 by lia;
  repeat match goal with
         | |- context [?a mod ?b] => rewrite (Z.mod_small a b) by lia
         end.

Lemma instr_rrr_value (op r0 r1 r2 : Z) :
  0 <= op < 16 -> 0 <= r0 < 32 -> 0 <= r1 < 32 -> 0 <= r2 < 32 ->
  instr_rrr op r0 r1 r2 = op * 2 ^ 28 + r0 * 2 ^ 23 + r1 * 2 ^ 18 + r2 * 2 ^ 13.
Proof.
  intros Hop H0 H1 H2. unfold instr_rrr. drop_wraps. lia.
Qed.

Lemma instr_ri_value (op r0 i : Z) :
  0 <= op < 16 -> 0 <= r0 < 32 -> 0 <= i < 2 ^ 23 ->
  instr_ri op r0 i = op * 2 ^ 28 + r0 * 2 ^ 23 + i.
Proof.
  intros Hop H0 Hi. unfold instr_ri. drop_wraps. lia.
Qed.

(** What each extraction macro computes, as a quotient and a remainder. *)
Lemma get_opcode_div (w : Z) : get_opcode w = (w / 2 ^ 28) mod 2 ^ 4.
Proof.
  unfold get_opcode, instr_size, __opcb.
  rewrite Z.shiftr_land, Z.shiftr_div_pow2 by lia.
  change (Z.shiftr 0xF0000000 (32 - 4)) with (Z.ones 4).
  now rewrite Z.land_ones by lia.
Qed.

Lemma get_arg_r0_div (w : Z) : get_arg_r0 w = (w / 2 ^ 23) mod 2 ^ 5.
Proof.
  unfold get_arg_r0, instr_size, __opcb, __regb.
  rewrite Z.shiftr_land, Z.shiftr_div_pow2 by lia.
  change (Z.shiftr 0x0F800000 (32 - (4 + 5))) with (Z.ones 5).
  now rewrite Z.land_ones by lia.
Qed.

(** The mask of [get_arg_r1] covers bits 20..16 and the shift is 18: three
    bits survive. *)
Lemma get_arg_r1_div (w : Z) : get_arg_r1 w = (w / 2 ^ 18) mod 2 ^ 3.
Proof.
  unfold get_arg_r1, instr_size, __opcb, __regb.
  rewrite Z.shiftr_land, Z.shiftr_div_pow2 by lia.
  change (Z.shiftr 0x001F0000 (32 - (4 + 2 * 5))) with (Z.ones 3).
  now rewrite Z.land_ones by lia.
Qed.

(** The mask of [get_arg_r2] covers bits 15..11 and the shift is 13. *)
Lemma get_arg_r2_div (w : Z) : get_arg_r2 w = (w / 2 ^ 13) mod 2 ^ 3.
Proof.
  unfold get_arg_r2, instr_size, __opcb, __regb.
  rewrite Z.shiftr_land, Z.shiftr_div_pow2 by lia.
  change (Z.shiftr 0x0000F800 (32 - (4 + 3 * 5))) with (Z.ones 3).
  now rewrite Z.land_ones by lia.
Qed.

Lemma get_arg_i_mod (w : Z) : get_arg_i w = w mod 2 ^ 23.
Proof.
  unfold get_arg_i. change 0x007FFFFF with (Z.ones 23).
  now rewrite Z.land_ones by lia.
Qed.

Lemma get_arg_r1_instr_rrr (op r0 r1 r2 : Z) :
  0 <= op < 16 -> 0 <= r0 < 32 -> 0 <= r1 < 32 -> 0 <= r2 < 32 ->
  get_arg_r1 (instr_rrr op r0 r1 r2) = r1 mod 8.
Proof.
  intros Hop H0 H1 H2.
  rewrite get_arg_r1_div, instr_rrr_value by assumption.
  Z.div_mod_to_equations. lia.
Qed.

Lemma get_arg_r2_instr_rrr (op r0 r1 r2 : Z) :
  0 <= op < 16 -> 0 <= r0 < 32 -> 0 <= r1 < 32 -> 0 <= r2 < 32 ->
  get_arg_r2 (instr_rrr op r0 r1 r2) = r2 mod 8.
Proof.
  intros Hop H0 H1 H2.
  rewrite get_arg_r2_div, instr_rrr_value by assumption.
  Z.div_mod_to_equations. lia.
Qed.

Lemma get_opcode_instr_rrr (op r0 r1 r2 : Z) :
  0 <= op < 16 -> 0 <= r0 < 32 -> 0 <= r1 < 32 -> 0 <= r2 < 32 ->
  get_opcode (instr_rrr op r0 r1 r2) = op.
Proof.
  intros Hop H0 H1 H2.
  rewrite get_opcode_div, instr_rrr_value by assumption.
  Z.div_mod_to_equations. lia.
Qed.

Lemma get_arg_r0_instr_rrr (op r0 r1 r2 : Z) :
  0 <= op < 16 -> 0 <= r0 < 32 -> 0 <= r1 < 32 -> 0 <= r2 < 32 ->
  get_arg_r0 (instr_rrr op r0 r1 r2) = r0.
Proof.
  intros Hop H0 H1 H2.
  rewrite get_arg_r0_div, instr_rrr_value by assumption.
  Z.div_mod_to_equations. lia.
Qed.

Lemma opcode_code_range (op : vm_opcode) : 0 <= opcode_code op < 16.
Proof. destruct op; simpl; lia. Qed.

Lemma opcode_of_code_code (op : vm_opcode) :
  opcode_of_code (opcode_code op) = Some op.
Proof. now destruct op. Qed.

(** The defect shows at every index from 8 on: the decoded operand is the
    index less a multiple of 8. *)
Lemma get_arg_r1_instr_rrr_high (op r0 r1 r2 : Z) :
  0 <= op < 16 -> 0 <= r0 < 32 -> 8 <= r1 < 32 -> 0 <= r2 < 32 ->
  get_arg_r1 (instr_rrr op r0 r1 r2) <> r1.
Proof.
  intros Hop H0 H1 H2. rewrite get_arg_r1_instr_rrr by lia.
  Z.div_mod_to_equations. lia.
Qed.

(** C1 (the code departs from the claim). The construction macro lays the
    register form out as the claim says, r1 from bit 18 and r2 from bit 13,
    and the opcode and r0 come back; but on [op_add(0, 8, 9)], whose
    operands are legal register indices, [get_arg_r1] returns 0 and
    [get_arg_r2] returns 1: the masks 0x001F0000 and 0x0000F800 keep only
    three bits of each field under the shifts 18 and 13. *)
Theorem instr_rrr_decode_defect :
  instr_rrr (opcode_code OP_ADD) 0 8 9
    = opcode_code OP_ADD * 2 ^ 28 + 0 * 2 ^ 23 + 8 * 2 ^ 18 + 9 * 2 ^ 13
  /\ get_opcode (instr_rrr (opcode_code OP_ADD) 0 8 9) = opcode_code OP_ADD
  /\ get_arg_r0 (instr_rrr (opcode_code OP_ADD) 0 8 9) = 0
  /\ get_arg_r1 (instr_rrr (opcode_code OP_ADD) 0 8 9) = 0
  /\ get_arg_r2 (instr_rrr (opcode_code OP_ADD) 0 8 9) = 1.
Proof. repeat split; vm_compute; reflexivity. Qed.

(** C2 as stated fails: register index 8 is below 16 and does not come
    back from [get_arg_r1], nor does 9 from [get_arg_r2]. *)
Lemma rrr_round_trip_below_16_counterexample :
  8 < 16 /\ 9 < 16
  /\ get_arg_r1 (instr_rrr (opcode_code OP_MOVE) 0 8 9) <> 8
  /\ get_arg_r2 (instr_rrr (opcode_code OP_MOVE) 0 8 9) <> 9.
Proof. repeat split; try lia; vm_compute; discriminate. Qed.

(** C2 (amended). The second and third register operands come back from
    the extraction macros for indices strictly below 8: for every opcode,
    every r0 and all r1, r2 below 8,
    [get_arg_r1(instr_rrr(op, r0, r1, r2)) = r1] and
    [get_arg_r2(instr_rrr(op, r0, r1, r2)) = r2]. *)
Theorem rrr_round_trip_below_8 (op : vm_opcode) (r0 r1 r2 : Z) :
  0 <= r0 < 32 -> 0 <= r1 < 8 -> 0 <= r2 < 8 ->
  get_arg_r1 (instr_rrr (opcode_code op) r0 r1 r2) = r1
  /\ get_arg_r2 (instr_rrr (opcode_code op) r0 r1 r2) = r2.
Proof.
  intros H0 H1 H2. pose proof (opcode_code_range op) as Hop.
  rewrite get_arg_r1_instr_rrr, get_arg_r2_instr_rrr by lia.
  split; apply Z.mod_small; lia.
Qed.

Lemma rrr_round_trip_below_8_witness :
  get_arg_r1 (instr_rrr (opcode_code OP_MATCH) 31 7 7) = 7
  /\ get_arg_r2 (instr_rrr (opcode_code OP_MATCH) 31 7 7) = 7.
Proof. apply (rrr_round_trip_below_8 OP_MATCH 31 7 7); lia. Defined.

(** C10. The immediate form round-trips: for every opcode value below 16,
    every r0 up to 31 and every immediate up to 2^23 - 1, the opcode, r0 and
    the immediate come back from [instr_ri]. *)
Theorem instr_ri_round_trip (op r0 i : Z) :
  0 <= op < 16 -> 0 <= r0 <= 31 -> 0 <= i <= 2 ^ 23 - 1 ->
  get_opcode (instr_ri op r0 i) = op
  /\ get_arg_r0 (instr_ri op r0 i) = r0
  /\ get_arg_i (instr_ri op r0 i) = i.
Proof.
  intros Hop H0 Hi.
  rewrite get_opcode_div, get_arg_r0_div, get_arg_i_mod, instr_ri_value by lia.
  repeat split; Z.div_mod_to_equations; lia.
Qed.

Lemma instr_ri_round_trip_witness :
  get_opcode (instr_ri 15 31 8388607) = 15
  /\ get_arg_r0 (instr_ri 15 31 8388607) = 31
  /\ get_arg_i (instr_ri 15 31 8388607) = 8388607.
Proof. apply (instr_ri_round_trip 15 31 8388607); lia. Defined.

End CodecFacts.

(** ** Value tagging *)

Section TaggingFacts.

Import Tagging.
Local Open Scope Z_scope.

Section Layout.

Variable value_bits : Z.
Variable payload_bits : Z.
Variable tag_code : vm_tag -> Z.
Hypothesis layout : layout_ok value_bits payload_bits tag_code.

(** Under a usable layout, packing a representable payload is adding it to
    the shifted tag: nothing overlaps and nothing is cut off. *)
Lemma val_sum (payload : Z) (t : vm_tag) :
  representable payload_bits payload ->
  val value_bits payload_bits tag_code payload t
  = tag_code t * 2 ^ payload_bits + payload.
Proof.
  destruct layout as (Hbits & Hcode & _). specialize (Hcode t).
  unfold representable, val. intros Hp.
  assert (Z.land (Z.shiftl (tag_code t) payload_bits) payload = 0) as Hdisj.
  { rewrite <- (Z.mod_small payload (2 ^ payload_bits)) by lia.
    rewrite <- Z.land_ones, (Z.land_comm payload), Z.land_assoc by lia.
    rewrite Z.land_ones, Z.shiftl_mul_pow2, Z.mod_mul by lia.
    apply Z.land_0_l. }
  rewrite <- Z.lxor_lor, <- Z.add_nocarry_lxor by exact Hdisj.
  rewrite Z.shiftl_mul_pow2, Z.land_ones by lia.
  apply Z.mod_small.
  assert (2 ^ value_bits = 2 ^ (value_bits - payload_bits) * 2 ^ payload_bits)
    as -> by (rewrite <- Z.pow_add_r by lia; f_equal; lia).
  nia.
Qed.

Lemma val_fields (payload : Z) (t : vm_tag) :
  representable payload_bits payload ->
  tag_field payload_bits (val value_bits payload_bits tag_code payload t)
  = tag_code t
  /\ payload_field payload_bits (val value_bits payload_bits tag_code payload t)
     = payload.
Proof.
  intros Hp. rewrite (val_sum payload t Hp).
  destruct layout as (Hbits & _ & _). unfold representable in Hp.
  unfold tag_field, payload_field.
  rewrite Z.shiftr_div_pow2, Z.land_ones by lia.
  assert (0 < 2 ^ payload_bits) by (apply Z.pow_pos_nonneg; lia).
  split.
  - rewrite Z.div_add_l, Z.div_small by lia. lia.
  - rewrite Z.add_comm, Z.mod_add, Z.mod_small by lia. reflexivity.
Qed.

Lemma tag_of_value_code (v : Z) (t : vm_tag) :
  tag_field payload_bits v = tag_code t ->
  tag_of_value payload_bits tag_code v = Some t.
Proof.
  destruct layout as (_ & _ & Hinj). intros Htag. unfold tag_of_value.
  rewrite Htag.
  destruct (Z.eqb_spec (tag_code t) (tag_code vm_tag_number)) as [E | N1];
    [now rewrite <- (Hinj _ _ E) |].
  destruct (Z.eqb_spec (tag_code t) (tag_code vm_tag_symbol)) as [E | N2];
    [now rewrite <- (Hinj _ _ E) |].
  destruct (Z.eqb_spec (tag_code t) (tag_code vm_tag_data_symbol)) as [E | N3];
    [now rewrite <- (Hinj _ _ E) |].
  destruct t; congruence.
Qed.

(** Unpacking under another tag is a [TagMismatch]. *)
Lemma from_val_other_tag (payload : Z) (t t' : vm_tag) :
  representable payload_bits payload ->
  t <> t' ->
  from_val payload_bits tag_code
           (val value_bits payload_bits tag_code payload t) t'
  = Err TagMismatch.
Proof.
  intros Hp Hne. unfold from_val.
  destruct (val_fields payload t Hp) as [-> _].
  destruct layout as (_ & _ & Hinj).
  destruct (Z.eqb_spec (tag_code t) (tag_code t')) as [E | _];
    [now apply Hinj in E | reflexivity].
Qed.

End Layout.

(** C3. Under any usable layout of tag and payload in the integer, for
    every representable payload and each of the tags Number, Symbol and
    DataSymbol: unpacking the packed value under the same tag gives the
    payload back, and the type of the packed value is the type of the
    tag. *)
Theorem val_round_trip
    (value_bits payload_bits : Z) (tag_code : vm_tag -> Z)
    (payload : Z) (t : vm_tag) :
  layout_ok value_bits payload_bits tag_code ->
  representable payload_bits payload ->
  from_val payload_bits tag_code
           (val value_bits payload_bits tag_code payload t) t = Ok payload
  /\ type_of_value payload_bits tag_code
                   (val value_bits payload_bits tag_code payload t)
     = type_of_tag t.
Proof.
  intros Hlayout Hrep.
  destruct (val_fields value_bits payload_bits tag_code Hlayout payload t Hrep)
    as [Htag Hpay].
  split.
  - unfold from_val. now rewrite Htag, Z.eqb_refl, Hpay.
  - unfold type_of_value.
    now rewrite (tag_of_value_code value_bits payload_bits tag_code Hlayout _ t Htag).
Qed.

Lemma example_layout_ok : layout_ok 32 28 example_tag_code.
Proof.
  split; [lia |]. split.
  - intros []; cbn; lia.
  - intros [] []; cbn; congruence.
Defined.

Lemma val_round_trip_witness :
  from_val 28 example_tag_code (val 32 28 example_tag_code 44 vm_tag_number)
           vm_tag_number = Ok 44
  /\ type_of_value 28 example_tag_code
                   (val 32 28 example_tag_code 44 vm_tag_number)
     = type_of_tag vm_tag_number.
Proof.
  apply (val_round_trip 32 28 example_tag_code 44 vm_tag_number).
  - exact example_layout_ok.
  - unfold representable. lia.
Defined.

(** The payload is not cut to its field: in the example layout the
    payload 2^28 under the number tag is read back as the symbol 0. *)
Example val_payload_spills :
  from_val 28 example_tag_code
           (val 32 28 example_tag_code (2 ^ 28) vm_tag_number) vm_tag_symbol
  = Ok 0.
Proof. reflexivity. Qed.

(** The tests compare the result of an addition with the plain integer
    ([is_equal(result, 37)]): that is the packed number when the number
    tag has the value 0. *)
Lemma word_of_number_plain
    (value_bits payload_bits : Z) (tag_code : vm_tag -> Z) (n : Z) :
  layout_ok value_bits payload_bits tag_code ->
  tag_code vm_tag_number = 0 ->
  representable payload_bits n ->
  word_of value_bits payload_bits tag_code (Number n) = Some n.
Proof.
  intros Hlayout Hzero Hrep. cbn [word_of].
  rewrite (val_sum value_bits payload_bits tag_code Hlayout n _ Hrep), Hzero.
  reflexivity.
Qed.

(** [applies_a_number_tag_to_a_value], under any usable layout whose
    payload field holds 44. *)
Example applies_a_number_tag_to_a_value
    (value_bits payload_bits : Z) (tag_code : vm_tag -> Z) :
  layout_ok value_bits payload_bits tag_code ->
  representable payload_bits 44 ->
  let number := val value_bits payload_bits tag_code 44 vm_tag_number in
  type_of_value payload_bits tag_code number = vm_type_number
  /\ type_of_value payload_bits tag_code number <> vm_type_symbol
  /\ from_val payload_bits tag_code number vm_tag_number = Ok 44.
Proof.
  intros Hlayout Hrep number. subst number.
  destruct (val_fields value_bits payload_bits tag_code Hlayout 44
              vm_tag_number Hrep) as [Htag Hpay].
  unfold type_of_value, from_val.
  rewrite (tag_of_value_code value_bits payload_bits tag_code Hlayout _ _ Htag).
  rewrite Htag, Z.eqb_refl, Hpay. cbn. repeat apply conj; congruence.
Qed.

(** [applies_a_symbol_tag_to_a_value]. *)
Example applies_a_symbol_tag_to_a_value
    (value_bits payload_bits : Z) (tag_code : vm_tag -> Z) :
  layout_ok value_bits payload_bits tag_code ->
  representable payload_bits 12 ->
  let symbol := val value_bits payload_bits tag_code 12 vm_tag_symbol in
  type_of_value payload_bits tag_code symbol = vm_type_symbol
  /\ type_of_value payload_bits tag_code symbol <> vm_type_number
  /\ from_val payload_bits tag_code symbol vm_tag_symbol = Ok 12.
Proof.
  intros Hlayout Hrep symbol. subst symbol.
  destruct (val_fields value_bits payload_bits tag_code Hlayout 12
              vm_tag_symbol Hrep) as [Htag Hpay].
  unfold type_of_value, from_val.
  rewrite (tag_of_value_code value_bits payload_bits tag_code Hlayout _ _ Htag).
  rewrite Htag, Z.eqb_refl, Hpay. cbn. repeat apply conj; congruence.
Qed.

End TaggingFacts.

(** ** The tests of [vm_spec.c] on the model

    An expected value [val(n, tag)] of a test is written as the value of
    the machine that the packed integer stands for ([word_of]). *)

Section TestRuns.

Import Tests.

Example loads_a_number_into_a_register_result :
  vm_execute loadsd_tagged_index test_depth loads_a_number_into_a_register [] test_fuel
  = Some (Halted (Number 55)).
Proof. vm_compute. reflexivity. Qed.

Example adds_two_numbers_result :
  vm_execute loadsd_tagged_index test_depth adds_two_numbers [] test_fuel = Some (Halted (Number 37)).
Proof. vm_compute. reflexivity. Qed.

Example moves_a_register_result :
  vm_execute loadsd_tagged_index test_depth moves_a_register [] test_fuel = Some (Halted (Number 37)).
Proof. vm_compute. reflexivity. Qed.

Example directly_calls_a_function_result :
  vm_execute loadsd_tagged_index test_depth directly_calls_a_function [] test_fuel
  = Some (Halted (Number 138)).
Proof. vm_compute. reflexivity. Qed.

Example calls_a_closure_downwards_result :
  vm_execute loadsd_tagged_index test_depth calls_a_closure_downwards [] test_fuel
  = Some (Halted (Number 58)).
Proof. vm_compute. reflexivity. Qed.

Example calls_a_closure_upwards_result :
  vm_execute loadsd_tagged_index test_depth calls_a_closure_upwards [] test_fuel
  = Some (Halted (Number 56)).
Proof. vm_compute. reflexivity. Qed.

Example loads_a_symbol_into_a_register_result :
  vm_execute loadsd_tagged_index test_depth loads_a_symbol_into_a_register [] test_fuel
  = Some (Halted (Symbol 12)).
Proof. vm_compute. reflexivity. Qed.

Example loads_a_constant_result :
  vm_execute loadsd_tagged_index test_depth loads_a_constant loads_a_constant_table test_fuel
  = Some (Halted (Symbol 33)).
Proof. vm_compute. reflexivity. Qed.

Example loads_a_data_symbol_result :
  vm_execute loadsd_tagged_index test_depth loads_a_data_symbol loads_a_data_symbol_table test_fuel
  = Some (Halted (DataSymbol 1)).
Proof. vm_compute. reflexivity. Qed.

Example jumps_forward_result :
  vm_execute loadsd_tagged_index test_depth jumps_forward [] test_fuel = Some (Halted (Number 70)).
Proof. vm_compute. reflexivity. Qed.

Example matches_a_number_result :
  vm_execute loadsd_tagged_index test_depth matches_a_number matches_a_number_table test_fuel
  = Some (Halted (Number 300)).
Proof. vm_compute. reflexivity. Qed.

Example matches_a_symbol_result :
  vm_execute loadsd_tagged_index test_depth matches_a_symbol matches_a_symbol_table test_fuel
  = Some (Halted (Number 300)).
Proof. vm_compute. reflexivity. Qed.

Example matches_a_data_symbol_result :
  vm_execute loadsd_tagged_index test_depth matches_a_data_symbol matches_a_data_symbol_table test_fuel
  = Some (Halted (Number 300)).
Proof. vm_compute. reflexivity. Qed.

Example binds_a_value_in_a_match_result :
  vm_execute loadsd_tagged_index test_depth binds_a_value_in_a_match binds_a_value_in_a_match_table
             test_fuel
  = Some (Halted (Number 77)).
Proof. vm_compute. reflexivity. Qed.

End TestRuns.

(** ** The machine: single instructions *)

Section MachineFacts.

Local Open Scope nat_scope.

Variable loadsd : list vm_value -> Z -> result vm_value.
Variable max_depth : nat.
Variable program : list Z.
Variable pool : list vm_value.

Lemma result_bind_ok {A B : Type} (m : result A) (k : A -> result B) (b : B) :
  result_bind m k = Ok b -> exists a, m = Ok a /\ k a = Ok b.
Proof. destruct m as [a | f]; simpl; [eauto | discriminate]. Qed.

(** Split a chain of binds that succeeded into its links. *)
Ltac inv_ok H :=
  repeat match type of H with
         | result_bind _ _ = Ok _ =>
             let a := fresh "a" in
             let Ha := fresh "Ha" in
             apply result_bind_ok in H; destruct H as (a & Ha & H)
         end.

Lemma set_reg_ok (rs : list vm_value) (i : nat) (v : vm_value) (rs' : list vm_value) :
  set_reg rs i v = Ok rs' -> i < NUM_REGS /\ rs' = <[i:=v]> rs.
Proof.
  unfold set_reg. destruct (i <? NUM_REGS) eqn:Hi; intros H; [| discriminate].
  apply Nat.ltb_lt in Hi. split; [assumption | congruence].
Qed.

Lemma set_reg_in_range (rs : list vm_value) (i : nat) (v : vm_value) :
  i < NUM_REGS -> set_reg rs i v = Ok (<[i:=v]> rs).
Proof.
  intros Hi. unfold set_reg. apply Nat.ltb_lt in Hi. now rewrite Hi.
Qed.

Lemma get_reg_ok (rs : list vm_value) (i : nat) (v : vm_value) :
  get_reg rs i = Ok v <-> rs !! i = Some v.
Proof.
  unfold get_reg. destruct (rs !! i); split; intros H; congruence.
Qed.


Lemma step_fetch (mfuel : nat) (st : vm_state) (w : Z) (op : vm_opcode) :
  program !! pc st = Some w ->
  get_opcode w = opcode_code op ->
  step loadsd max_depth program pool mfuel st
  = match exec loadsd max_depth pool mfuel st w op with
    | None => None
    | Some (Ok (Next st')) => Some (Running st')
    | Some (Ok (Halt v)) => Some (Stopped (Halted v))
    | Some (Err f) => Some (Stopped (Faulted f (pc st)))
    end.
Proof.
  intros Hw Hop. unfold step. now rewrite Hw, Hop, opcode_of_code_code.
Qed.

(** What a step that goes on says about the decoded instruction. *)
Lemma step_running_exec (mfuel : nat) (st st' : vm_state) (w : Z) (op : vm_opcode) :
  program !! pc st = Some w ->
  get_opcode w = opcode_code op ->
  step loadsd max_depth program pool mfuel st = Some (Running st') ->
  exec loadsd max_depth pool mfuel st w op = Some (Ok (Next st')).
Proof.
  intros Hw Hop Hstep. rewrite (step_fetch mfuel st w op Hw Hop) in Hstep.
  destruct (exec loadsd max_depth pool mfuel st w op) as [[[st1 | v] | f] |];
    congruence.
Qed.

Lemma load_ok (st : vm_state) (r : nat) (v : vm_value) (o : outcome) :
  load st r v = Ok o ->
  r < NUM_REGS
  /\ o = Next (jump (with_regs st (<[r:=v]> (regs (cur st)))) (S (pc st))).
Proof.
  unfold load. intros H. apply result_bind_ok in H as (rs & Hset & H).
  apply set_reg_ok in Hset as [Hr ->]. split; [exact Hr | congruence].
Qed.

(** Name the decoded operands of [w], forgetting how they are computed. *)
Tactic Notation "name_operands" constr(w) "as" ident(a) ident(b) ident(c) ident(i) :=
  set (a := Z.to_nat (get_arg_r0 w)) in *;
  set (b := Z.to_nat (get_arg_r1 w)) in *;
  set (c := Z.to_nat (get_arg_r2 w)) in *;
  set (i := get_arg_i w) in *;
  clearbody a b c i.

(** *** MATCH *)



(** Conversely, the case a MATCH selects is the first that matches: it
    matched, and each case before it was tried and did not. *)
Lemma try_cases_matched_inv
    (mv : vm_value -> vm_value -> list vm_value -> option match_result)
    (table : nat) (subj : vm_value) :
  forall n i rs k rs',
    try_cases mv pool table subj n i rs = Some (CaseMatched k rs') ->
    i <= k < i + n
    /\ (exists pat rs_k,
           pool !! (table + 1 + k) = Some pat
           /\ mv pat subj rs_k = Some (MatchOk rs'))
    /\ forall j, i <= j -> j < k -> exists pat rs_j rs_j',
         pool !! (table + 1 + j) = Some pat
         /\ mv pat subj rs_j = Some (NoMatch rs_j').
Proof.
  induction n as [| n IH]; intros i rs k rs' Hc; cbn [try_cases] in Hc;
    [discriminate |].
  destruct (pool !! (table + 1 + i)) as [pat |] eqn:Hpat; [| discriminate].
  destruct (mv pat subj rs) as [[rs1 | rs1 | f] |] eqn:Hm; try discriminate.
  - assert (k = i /\ rs' = rs1) as [-> ->] by (split; congruence).
    split; [lia |]. split; [eauto |]. intros j Hij Hji. lia.
  - destruct (IH _ _ _ _ Hc) as (Hk & Hacc & Hrej).
    split; [lia |]. split; [exact Hacc |].
    intros j Hij Hjk. destruct (decide (j = i)) as [-> | Hne]; [eauto |].
    apply Hrej; lia.
Qed.

Lemma match_running_inv (mfuel : nat) (st st' : vm_state) (w : Z) :
  program !! pc st = Some w ->
  get_opcode w = opcode_code OP_MATCH ->
  step loadsd max_depth program pool mfuel st = Some (Running st') ->
  exists subj table n i,
    get_reg (regs (cur st)) (Z.to_nat (get_arg_r0 w)) = Ok subj
    /\ address_in (regs (cur st)) (Z.to_nat (get_arg_r1 w)) = Ok table
    /\ pool !! table = Some (MatchHeader n)
    /\ i < n
    /\ pc st' = pc st + 1 + i
    /\ (exists pat rs_i,
           pool !! (table + 1 + i) = Some pat
           /\ match_value mfuel pool (Z.to_nat (get_arg_r2 w)) pat subj rs_i
              = Some (MatchOk (regs (cur st'))))
    /\ forall j, j < i -> exists pat rs_j rs_j',
         pool !! (table + 1 + j) = Some pat
         /\ match_value mfuel pool (Z.to_nat (get_arg_r2 w)) pat subj rs_j
            = Some (NoMatch rs_j').
Proof.
  intros Hw Hop Hstep.
  apply (step_running_exec mfuel st st' w _ Hw Hop) in Hstep.
  apply (f_equal unwrap_exec) in Hstep.
  cbv beta iota zeta delta [exec] in Hstep.
  name_operands w as r0 r1 r2 imm.
  destruct (get_reg (regs (cur st)) r0) as [subj | f] eqn:Hsubj;
    [| discriminate].
  cbn [result_bind] in Hstep.
  destruct (address_in (regs (cur st)) r1) as [table | f] eqn:Htable;
    [| discriminate].
  cbn [result_bind] in Hstep. unfold get_const in Hstep.
  destruct (pool !! table) as [h |] eqn:Hh; [| discriminate].
  cbn [result_bind] in Hstep. destruct h; try discriminate.
  destruct (try_cases _ _ _ _ _ _ _) as [[k rs' | rs' | f] |] eqn:Hcases;
    try discriminate.
  cbn [unwrap_exec] in Hstep.
  assert (st' = jump (with_regs st rs') (pc st + 1 + k)) as -> by congruence.
  apply try_cases_matched_inv in Hcases as (Hk & Hacc & Hrej).
  exists subj, table, n, k. cbn [jump with_regs pc cur regs].
  split; [reflexivity |]. split; [reflexivity |]. split; [exact Hh |].
  split; [lia |]. split; [reflexivity |]. split; [exact Hacc |].
  intros j Hj. apply Hrej; lia.
Qed.

Lemma match_fields_split
    (mv : vm_value -> vm_value -> list vm_value -> option match_result)
    (j : nat) :
  forall n pp sp rs rs',
    match_fields mv pool n pp sp rs = Some (MatchOk rs') ->
    j <= n ->
    exists rs_j,
      match_fields mv pool j pp sp rs = Some (MatchOk rs_j)
      /\ match_fields mv pool (n - j) (pp + j) (sp + j) rs_j = Some (MatchOk rs').
Proof.
  induction j as [| j IH]; intros n pp sp rs rs' Hm Hjn.
  - exists rs. rewrite Nat.sub_0_r, !Nat.add_0_r. split; [reflexivity | exact Hm].
  - destruct n as [| n]; [lia |]. cbn [match_fields] in Hm |- *.
    destruct (pool !! pp) as [fp |]; [| discriminate].
    destruct (pool !! sp) as [fs |]; [| discriminate].
    destruct (mv fp fs rs) as [[rs1 | rs1 | f] |]; try discriminate.
    destruct (IH n (S pp) (S sp) rs1 rs' Hm ltac:(lia)) as (rs_j & H1 & H2).
    exists rs_j. split; [exact H1 |].
    replace (pp + S j) with (S pp + j) by lia.
    replace (sp + S j) with (S sp + j) by lia.
    exact H2.
Qed.

(** Fields that keep the slot leave its register as it was. *)
Lemma match_fields_keeps (fuel base slot : nat) :
  forall n pp sp rs rs',
    (forall i, i < n -> exists fp,
        pool !! (pp + i) = Some fp /\ keeps_slot slot fp = true) ->
    match_fields (match_value fuel pool base) pool n pp sp rs = Some (MatchOk rs') ->
    rs' !! (base + slot) = rs !! (base + slot).
Proof.
  induction n as [| n IH]; intros pp sp rs rs' Hkeep Hm; cbn [match_fields] in Hm.
  - congruence.
  - destruct (Hkeep 0 ltac:(lia)) as (fp & Hfp & Hk).
    rewrite Nat.add_0_r in Hfp. rewrite Hfp in Hm.
    destruct (pool !! sp) as [fs |]; [| discriminate].
    assert (forall rs1, match_value fuel pool base fp fs rs = Some (MatchOk rs1) ->
                        rs1 !! (base + slot) = rs !! (base + slot)) as Hone.
    { intros rs1 H1. destruct fuel as [| fuel']; [discriminate |].
      destruct fp; try discriminate Hk; cbn [match_value] in H1.
      - destruct fs; try discriminate. destruct (_ =? _)%Z; congruence.
      - destruct fs; try discriminate. destruct (_ =? _)%Z; congruence.
      - cbn [keeps_slot] in Hk. apply negb_true_iff, Nat.eqb_neq in Hk.
        destruct (set_reg rs (base + slot0) fs) as [rs2 |] eqn:Hset; [| discriminate].
        apply set_reg_ok in Hset as [_ ->].
        assert (rs1 = <[base + slot0 := fs]> rs) as -> by congruence.
        apply list_lookup_insert_ne. lia. }
    destruct (match_value fuel pool base fp fs rs) as [[rs1 | rs1 | f] |];
      try discriminate.
    rewrite <- (Hone rs1 eq_refl).
    apply (IH (S pp) (S sp) rs1 rs'); [| exact Hm].
    intros i Hi. destruct (Hkeep (S i) ltac:(lia)) as (fp' & Hfp' & Hk').
    exists fp'. split; [| exact Hk'].
    replace (S pp + i) with (pp + S i) by lia. exact Hfp'.
Qed.

(** The matcher writes registers in place: the bank keeps its length. *)
Lemma match_value_length (base : nat) :
  forall fuel pat subj rs r,
    match_value fuel pool base pat subj rs = Some r ->
    match r with
    | MatchOk rs' | NoMatch rs' => length rs' = length rs
    | MatchFault _ => True
    end.
Proof.
  induction fuel as [| fuel IH]; intros pat subj rs r Hm; [discriminate |].
  assert (forall n pp sp rs0 r0,
             match_fields (match_value fuel pool base) pool n pp sp rs0 = Some r0 ->
             match r0 with
             | MatchOk rs' | NoMatch rs' => length rs' = length rs0
             | MatchFault _ => True
             end) as Hfields.
  { induction n as [| n IHn]; intros pp sp rs0 r0 Hf; cbn [match_fields] in Hf.
    - now inversion Hf.
    - destruct (pool !! pp) as [fp |]; [| now inversion Hf].
      destruct (pool !! sp) as [fs |]; [| now inversion Hf].
      destruct (match_value fuel pool base fp fs rs0) as [[rs1 | rs1 | f] |] eqn:H1;
        try (now inversion Hf).
      + apply IH in H1. apply IHn in Hf.
        destruct r0; try exact I; congruence.
      + apply IH in H1. now inversion Hf. }
  cbn [match_value] in Hm. destruct pat.
  - destruct subj; inversion Hm; try reflexivity. now destruct (_ =? _)%Z.
  - destruct subj; inversion Hm; try reflexivity. now destruct (_ =? _)%Z.
  - destruct (pool_header pool payload) as [[arity tag] |].
    + destruct subj; try (inversion Hm; reflexivity).
      destruct (pool_header pool payload0) as [[arity' tag'] |];
        [| inversion Hm; reflexivity].
      destruct (_ && _); [| inversion Hm; reflexivity].
      now apply Hfields in Hm.
    + destruct subj; inversion Hm; try reflexivity. now destruct (_ =? _)%Z.
  - now inversion Hm.
  - now inversion Hm.
  - now inversion Hm.
  - inversion Hm. destruct (set_reg rs (base + slot) subj) as [rs' |] eqn:Hset;
      [| exact I].
    apply set_reg_ok in Hset as [_ ->]. apply length_insert.
Qed.

Lemma match_fields_length (fuel base : nat) :
  forall n pp sp rs rs',
    match_fields (match_value fuel pool base) pool n pp sp rs = Some (MatchOk rs') ->
    length rs' = length rs.
Proof.
  induction n as [| n IH]; intros pp sp rs rs' Hm; cbn [match_fields] in Hm.
  - congruence.
  - destruct (pool !! pp) as [fp |]; [| discriminate].
    destruct (pool !! sp) as [fs |]; [| discriminate].
    destruct (match_value fuel pool base fp fs rs) as [[rs1 | rs1 | f] |] eqn:H1;
      try discriminate.
    apply match_value_length in H1. apply IH in Hm. congruence.
Qed.

(** The matcher on a variable. Let a compound case pattern at pool
    position [p] have the field
    pattern [MatchVar slot] at field [j], and let it match the subject
    record at [s], whose field [j] is [v], taking the registers [rs] of the
    current frame to [rs']. Then: the [MatchVar] pattern matches every
    subject field, writing it to register [base + slot]; in this match the
    fields before [j] were matched first, then [v] was written to register
    [base + slot] whatever it held, then the remaining fields were matched;
    and if no later field of the case binds the same slot, register
    [base + slot] holds [v] when the case has matched. *)
Lemma match_var_binds
    (fuel base : nat) (p s : Z) (arity : nat) (tag : Z) (j slot : nat)
    (v : vm_value) (rs rs' : list vm_value) :
  pool_header pool p = Some (arity, tag) ->
  j < arity ->
  pool !! (S (Z.to_nat p) + j) = Some (MatchVar slot) ->
  pool !! (S (Z.to_nat s) + j) = Some v ->
  match_value (S fuel) pool base (DataSymbol p) (DataSymbol s) rs
  = Some (MatchOk rs') ->
  (forall subj rs0,
      match_value (S fuel) pool base (MatchVar slot) subj rs0
      = Some (MatchOk (<[base + slot := subj]> rs0)))
  /\ (exists rs_j,
        match_fields (match_value fuel pool base) pool j
                     (S (Z.to_nat p)) (S (Z.to_nat s)) rs = Some (MatchOk rs_j)
        /\ match_fields (match_value fuel pool base) pool (arity - S j)
                        (S (Z.to_nat p) + S j) (S (Z.to_nat s) + S j)
                        (<[base + slot := v]> rs_j) = Some (MatchOk rs'))
  /\ ((forall j', j < j' -> j' < arity -> exists fp,
          pool !! (S (Z.to_nat p) + j') = Some fp /\ keeps_slot slot fp = true) ->
      length rs = NUM_REGS ->
      rs' !! (base + slot) = Some v).
Proof.
  intros Hhdr Hj Hpat Hsub Hm.
  cbn [match_value] in Hm |- *. rewrite Hhdr in Hm.
  destruct (pool_header pool s) as [[arity' tag'] |]; [| discriminate].
  destruct (_ && _); [| discriminate].
  destruct (match_fields_split _ j _ _ _ _ _ Hm ltac:(lia)) as (rs_j & Hpre & Hrest).
  replace (arity - j) with (S (arity - S j)) in Hrest by lia.
  cbn [match_fields] in Hrest. rewrite Hpat, Hsub in Hrest.
  destruct fuel as [| fuel]; [discriminate |].
  cbn [match_value] in Hrest.
  destruct (set_reg rs_j (base + slot) v) as [rs_w |] eqn:Hset; [| discriminate].
  apply set_reg_ok in Hset as [Hrange ->].
  rewrite <- !Nat.add_succ_r in Hrest.
  split; [| split].
  - intros subj rs0. now rewrite set_reg_in_range.
  - exists rs_j. split; assumption.
  - intros Hkeep Hlen.
    assert (forall i, i < arity - S j -> exists fp,
               pool !! (S (Z.to_nat p) + S j + i) = Some fp
               /\ keeps_slot slot fp = true) as Hlater.
    { intros i Hi.
      destruct (Hkeep (S j + i) ltac:(lia) ltac:(lia)) as (fp & Hfp & Hk).
      exists fp. split; [| exact Hk].
      replace (S (Z.to_nat p) + S j + i) with (S (Z.to_nat p) + (S j + i)) by lia.
      exact Hfp. }
    rewrite (match_fields_keeps (S fuel) base slot _ _ _ _ _ Hlater Hrest).
    apply list_lookup_insert_eq.
    rewrite (match_fields_length _ _ _ _ _ _ _ Hpre), Hlen. exact Hrange.
Qed.

(** *** CALL, CALLCL and MAKECL *)

Lemma read_regs_lookup (rs : list vm_value) :
  forall n first vs,
    read_regs rs first n = Ok vs ->
    length vs = n
    /\ forall j, j < n -> exists v,
         rs !! (first + j) = Some v /\ vs !! j = Some v.
Proof.
  induction n as [| n IH]; intros first vs H; cbn [read_regs] in H.
  - inversion H. split; [reflexivity | intros j Hj; lia].
  - inv_ok H. inversion H; subst vs. clear H.
    apply get_reg_ok in Ha. apply IH in Ha0 as [Hlen Hlook].
    split; [cbn [length]; now rewrite Hlen |].
    intros [| j] Hj.
    + exists a. rewrite Nat.add_0_r. split; [exact Ha | reflexivity].
    + destruct (Hlook j ltac:(lia)) as (v & Hv1 & Hv2).
      exists v. replace (first + S j) with (S first + j) by lia.
      split; assumption.
Qed.

Lemma frame_regs_ok (vals rs' : list vm_value) :
  frame_regs vals = Ok rs' ->
  length rs' = NUM_REGS
  /\ forall j, j < length vals -> rs' !! S j = vals !! j.
Proof.
  unfold frame_regs. destruct (S (length vals) <=? NUM_REGS) eqn:Hle;
    intros H; [| discriminate].
  apply Nat.leb_le in Hle. inversion H; subst rs'. clear H. split.
  - cbn [length]. rewrite length_app, length_replicate.
    unfold NUM_REGS in *. lia.
  - intros j Hj. cbn [lookup]. change ((default_value :: ?l) !! S j) with (l !! j).
    now apply lookup_app_l.
Qed.

Lemma push_frame_ok (st : vm_state) (r0 entry : nat) (vals : list vm_value)
    (o : outcome) :
  push_frame max_depth st r0 entry vals = Ok o ->
  depth st < max_depth
  /\ exists rs',
      frame_regs vals = Ok rs'
      /\ o = Next {| cur := {| regs := rs';
                               return_address := S (pc st);
                               result_register := r0 |};
                     callers := cur st :: callers st;
                     pc := entry |}.
Proof.
  unfold push_frame. destruct (max_depth <=? depth st) eqn:Hd; intros H;
    [discriminate |].
  apply Nat.leb_gt in Hd. split; [exact Hd |].
  inv_ok H. exists a. split; [exact Ha | congruence].
Qed.

(** The frame either kind of call pushes, from the values it is given. *)
Lemma call_pushes (mfuel : nat) (st st' : vm_state) (w : Z) :
  program !! pc st = Some w ->
  get_opcode w = opcode_code OP_CALL \/ get_opcode w = opcode_code OP_CALLCL ->
  step loadsd max_depth program pool mfuel st = Some (Running st') ->
  exists args extra rs',
    read_regs (regs (cur st)) (S (Z.to_nat (get_arg_r1 w)))
              (Z.to_nat (get_arg_r2 w)) = Ok args
    /\ frame_regs (args ++ extra) = Ok rs'
    /\ regs (cur st') = rs'
    /\ callers st' = cur st :: callers st
    /\ depth st < max_depth
    /\ return_address (cur st') = S (pc st).
Proof.
  intros Hw [Hop | Hop] Hstep;
    apply (step_running_exec mfuel st st' w _ Hw Hop) in Hstep;
    cbv beta iota zeta delta [exec] in Hstep;
    name_operands w as r0 r1 r2 imm;
    apply (f_equal (fun o => match o with Some r => r | None => Err TypeError end))
      in Hstep.
  - apply result_bind_ok in Hstep as (entry & Hentry & Hstep).
    apply result_bind_ok in Hstep as (args & Hargs & Hstep).
    apply push_frame_ok in Hstep as (Hd & rs' & Hfr & Ho).
    assert (st' = {| cur := {| regs := rs'; return_address := S (pc st);
                               result_register := r0 |};
                     callers := cur st :: callers st; pc := entry |}) as ->
        by congruence.
    exists args, [], rs'. rewrite app_nil_r. repeat split; assumption.
  - apply result_bind_ok in Hstep as (c & Hc & Hstep).
    destruct c as [| | | entry captured | | |]; try discriminate.
    apply result_bind_ok in Hstep as (args & Hargs & Hstep).
    apply push_frame_ok in Hstep as (Hd & rs' & Hfr & Ho).
    assert (st' = {| cur := {| regs := rs'; return_address := S (pc st);
                               result_register := r0 |};
                     callers := cur st :: callers st; pc := entry |}) as ->
        by congruence.
    exists args, captured, rs'. repeat split; assumption.
Qed.

(** A CALL or CALLCL whose second and third operand decode to [fr] and [n]
    pushes a frame above the caller's whose register [k], for every [k]
    from 1 to [n], holds the value register [fr + k] of the caller has at
    the time of the call. *)
Lemma call_marshals_arguments
    (mfuel : nat) (st st' : vm_state) (w : Z) (k : nat) :
  program !! pc st = Some w ->
  get_opcode w = opcode_code OP_CALL \/ get_opcode w = opcode_code OP_CALLCL ->
  step loadsd max_depth program pool mfuel st = Some (Running st') ->
  1 <= k <= Z.to_nat (get_arg_r2 w) ->
  callers st' = cur st :: callers st
  /\ exists v,
      regs (cur st) !! (Z.to_nat (get_arg_r1 w) + k) = Some v
      /\ regs (cur st') !! k = Some v.
Proof.
  intros Hw Hop Hstep Hk.
  destruct (call_pushes mfuel st st' w Hw Hop Hstep)
    as (args & extra & rs' & Hargs & Hfr & Hregs & Hcallers & _).
  split; [exact Hcallers |].
  apply read_regs_lookup in Hargs as [Hlen Hlook].
  apply frame_regs_ok in Hfr as [_ Hframe].
  destruct k as [| k]; [lia |].
  destruct (Hlook k ltac:(lia)) as (v & Hv1 & Hv2).
  exists v. split.
  - replace (Z.to_nat (get_arg_r1 w) + S k)
      with (S (Z.to_nat (get_arg_r1 w)) + k) by lia.
    exact Hv1.
  - rewrite Hregs, Hframe by (rewrite length_app; lia).
    rewrite lookup_app_l by lia. exact Hv2.
Qed.

(** Let MAKECL, executed in state [sm] with operands that decode to the
    base register [frm] and the count [nm], have written the closure [c];
    let a CALLCL whose count decodes to [n] find [c] in its closure register in any state [st], for
    instance after the creating frame has returned. Then [c] holds the
    address found in register [frm] as its entry and the values registers
    [frm + 1 .. frm + nm] had in [sm] as its captured values, in order; the
    frame the CALLCL pushes starts at that entry and holds those same
    values in registers [n + 1 .. n + nm], right after the arguments. *)
Lemma closure_call_layout
    (mfuel mfuel' : nat) (sm sm' st st' : vm_state) (wm w : Z) (c : vm_value) :
  program !! pc sm = Some wm ->
  get_opcode wm = opcode_code OP_MAKECL ->
  step loadsd max_depth program pool mfuel sm = Some (Running sm') ->
  regs (cur sm') !! Z.to_nat (get_arg_r0 wm) = Some c ->
  program !! pc st = Some w ->
  get_opcode w = opcode_code OP_CALLCL ->
  regs (cur st) !! Z.to_nat (get_arg_r1 w) = Some c ->
  step loadsd max_depth program pool mfuel' st = Some (Running st') ->
  exists entry captured,
    c = Closure entry captured
    /\ address_in (regs (cur sm)) (Z.to_nat (get_arg_r1 wm)) = Ok entry
    /\ length captured = Z.to_nat (get_arg_r2 wm)
    /\ pc st' = entry
    /\ callers st' = cur st :: callers st
    /\ forall j, j < Z.to_nat (get_arg_r2 wm) ->
         exists v,
           regs (cur sm) !! (Z.to_nat (get_arg_r1 wm) + 1 + j) = Some v
           /\ captured !! j = Some v
           /\ regs (cur st') !! (Z.to_nat (get_arg_r2 w) + 1 + j) = Some v.
Proof.
  intros Hwm Hopm Hstepm Hc Hw Hop Hfr Hstep.
  apply (step_running_exec mfuel sm sm' wm _ Hwm Hopm) in Hstepm.
  apply (step_running_exec mfuel' st st' w _ Hw Hop) in Hstep.
  cbv beta iota zeta delta [exec] in Hstepm, Hstep.
  name_operands wm as r0m frm nm immm. name_operands w as r0 fr n imm.
  apply (f_equal (fun o => match o with Some r => r | None => Err TypeError end))
    in Hstepm, Hstep.
  apply result_bind_ok in Hstepm as (entry & Hentry & Hstepm).
  apply result_bind_ok in Hstepm as (caps & Hcaps & Hstepm).
  apply load_ok in Hstepm as (Hr0 & Ho).
  assert (sm' = jump (with_regs sm (<[r0m := Closure entry caps]> (regs (cur sm))))
                     (S (pc sm))) as -> by congruence.
  cbn [cur regs jump with_regs] in Hc.
  pose proof (lookup_lt_Some _ _ _ Hc) as Hlt. rewrite length_insert in Hlt.
  rewrite list_lookup_insert_eq in Hc by exact Hlt.
  assert (c = Closure entry caps) as -> by congruence.
  apply read_regs_lookup in Hcaps as [Hlen Hcaps].
  apply result_bind_ok in Hstep as (c' & Hc' & Hstep).
  apply get_reg_ok in Hc'. rewrite Hfr in Hc'.
  assert (c' = Closure entry caps) as -> by congruence.
  apply result_bind_ok in Hstep as (args & Hargs & Hstep).
  apply push_frame_ok in Hstep as (_ & rs' & Hframe & Ho').
  assert (st' = {| cur := {| regs := rs'; return_address := S (pc st);
                             result_register := r0 |};
                   callers := cur st :: callers st; pc := entry |}) as ->
      by congruence.
  apply read_regs_lookup in Hargs as [Hlen' _].
  apply frame_regs_ok in Hframe as [_ Hframe].
  exists entry, caps. repeat split; try assumption.
  intros j Hj. destruct (Hcaps j Hj) as (v & Hv1 & Hv2).
  exists v. split; [| split].
  - replace (frm + 1 + j) with (S frm + j) by lia. exact Hv1.
  - exact Hv2.
  - cbn [cur regs].
    replace (n + 1 + j) with (S (n + j)) by lia.
    rewrite Hframe by (rewrite length_app; lia).
    rewrite lookup_app_r by lia.
    replace (n + j - length args) with j by lia.
    exact Hv2.
Qed.

(** *** The matcher returns *)





Section Acyclic.

Variable rank : nat -> nat.
Hypothesis rank_decreases :
  forall (p arity : nat) (tag : Z) (j : nat) (q : Z) (h : nat * Z),
    pool !! p = Some (DataSymbolHeader arity tag) ->
    j < arity ->
    pool !! (S p + j) = Some (DataSymbol q) ->
    pool_header pool q = Some h ->
    rank (Z.to_nat q) < rank p.



End Acyclic.



(** *** Every step does some of the work left *)






(** *** More fuel changes nothing *)






(** *** The loop returns *)


(** *** Halting *)




(** *** Reachable states *)







(** *** Staying inside the program *)





End MachineFacts.

(** ** The theorems at the tests of [vm_spec.c] *)

(** ** The machine on concrete programs *)

Section Runs.

Import Tests Further.
Local Open Scope nat_scope.

Variable loadsd : list vm_value -> Z -> result vm_value.
Variable max_depth : nat.
Variable program : list Z.
Variable pool : list vm_value.


(** The states [state_after] computes are states the machine passes
    through. *)
Lemma state_after_steps (mfuel n : nat) (st st' : vm_state) :
  state_after loadsd max_depth program pool mfuel n st = Some st' ->
  steps loadsd max_depth program pool st st'.
Proof.
  revert st. induction n as [| n IH]; intros st H; cbn [state_after] in H.
  - injection H as <-. apply steps_refl.
  - destruct (step loadsd max_depth program pool mfuel st) as [[st1 | r] |] eqn:E;
      try discriminate.
    eapply steps_step; [exact E | exact (IH st1 H)].
Qed.


End Runs.



Section ProgramFacts.

Import Tests Further.
Local Open Scope nat_scope.

(** *** LOADsd *)





(** *** Register operands from 8 on *)

(** C6 (the code departs from the claim). In [binds_into_register_12] the
    MATCH is built with third operand 11, so [match_var 1] names register
    12. The case with the variable is selected, but the subject's field 77
    is written into register 4, over the 66 that was there, and register
    12 keeps its 5: [get_arg_r2] gives 3 for the operand 11, the decoding
    defect of C1. *)
Theorem match_var_binds_decoded_base
    (loadsd : list vm_value -> Z -> result vm_value) :
  steps loadsd test_depth binds_into_register_12 binds_into_register_12_table
        initial_state binds_into_12_at_match
  /\ binds_into_register_12 !! pc binds_into_12_at_match
     = Some (op_match 1 2 11)
  /\ callers binds_into_12_at_match = []
  /\ regs (cur binds_into_12_at_match) !! (11 + 1) = Some (Number 5)
  /\ regs (cur binds_into_12_at_match) !! (3 + 1) = Some (Number 66)
  /\ Z.to_nat (get_arg_r2 (op_match 1 2 11)) = 3
  /\ (forall mfuel,
        step loadsd test_depth binds_into_register_12
             binds_into_register_12_table (S (S mfuel)) binds_into_12_at_match
        = Some (Running binds_into_12_after_match))
  /\ pc binds_into_12_after_match = pc binds_into_12_at_match + 1 + 1
  /\ regs (cur binds_into_12_after_match) !! (11 + 1) = Some (Number 5)
  /\ regs (cur binds_into_12_after_match) !! (3 + 1) = Some (Number 77)
  /\ vm_execute loadsd test_depth binds_into_register_12
                binds_into_register_12_table test_fuel
     = Some (Halted (Number 77)).
Proof.
  repeat apply conj; try (intros mfuel); try (vm_compute; reflexivity).
  apply (state_after_steps _ _ _ _ 2 5). vm_compute. reflexivity.
Qed.

(** C7 (the code departs from the claim). In [calls_from_register_9] the
    CALL is built with base register 9 and one argument, and register 10
    of the caller holds 111 at the call. The frame the CALL pushes holds
    222 in register 1, the value of the caller's register 2, and the
    program returns 222, not 111: [get_arg_r1] gives 1 for the operand 9,
    the decoding defect of C1. *)
Theorem call_marshals_decoded_base
    (loadsd : list vm_value -> Z -> result vm_value) :
  steps loadsd test_depth calls_from_register_9 [] initial_state
        calls_from_9_at_call
  /\ calls_from_register_9 !! pc calls_from_9_at_call = Some (op_call 0 9 1)
  /\ regs (cur calls_from_9_at_call) !! (9 + 1) = Some (Number 111)
  /\ regs (cur calls_from_9_at_call) !! (1 + 1) = Some (Number 222)
  /\ Z.to_nat (get_arg_r1 (op_call 0 9 1)) = 1
  /\ Z.to_nat (get_arg_r2 (op_call 0 9 1)) = 1
  /\ (forall mfuel,
        step loadsd test_depth calls_from_register_9 [] mfuel
             calls_from_9_at_call
        = Some (Running calls_from_9_in_callee))
  /\ callers calls_from_9_in_callee
     = cur calls_from_9_at_call :: callers calls_from_9_at_call
  /\ regs (cur calls_from_9_in_callee) !! 1 = Some (Number 222)
  /\ vm_execute loadsd test_depth calls_from_register_9 [] test_fuel
     = Some (Halted (Number 222)).
Proof.
  repeat apply conj; try (intros mfuel); try (vm_compute; reflexivity).
  apply (state_after_steps _ _ _ _ 2 4). vm_compute. reflexivity.
Qed.

(** C8 (the code departs from the claim). In [captures_from_register_9] a
    called function executes MAKECL with base register 9 and one value to
    capture, register 10 holding 24. The closure it writes has captured
    the 7 of register 2 instead. After the function has returned, the
    outermost frame calls the closure with the one argument 80: the new
    frame starts at the closure's entry and holds the argument in register
    1 and the captured 7 in register 2, and the program returns 80 - 7 =
    73, not 80 - 24 = 56: [get_arg_r1] gives 1 for the operand 9, the
    decoding defect of C1. *)
Theorem closure_captures_decoded_base
    (loadsd : list vm_value -> Z -> result vm_value) :
  steps loadsd test_depth captures_from_register_9 [] initial_state
        captures_from_9_at_makecl
  /\ captures_from_register_9 !! pc captures_from_9_at_makecl
     = Some (op_makecl 0 9 1)
  /\ length (callers captures_from_9_at_makecl) = 1
  /\ regs (cur captures_from_9_at_makecl) !! (9 + 1) = Some (Number 24)
  /\ regs (cur captures_from_9_at_makecl) !! (1 + 1) = Some (Number 7)
  /\ Z.to_nat (get_arg_r1 (op_makecl 0 9 1)) = 1
  /\ (forall mfuel,
        step loadsd test_depth captures_from_register_9 [] mfuel
             captures_from_9_at_makecl
        = Some (Running captures_from_9_after_makecl))
  /\ regs (cur captures_from_9_after_makecl) !! 0
     = Some (Closure 11 [Number 7])
  /\ steps loadsd test_depth captures_from_register_9 []
           captures_from_9_after_makecl captures_from_9_at_callcl
  /\ callers captures_from_9_at_callcl = []
  /\ captures_from_register_9 !! pc captures_from_9_at_callcl
     = Some (op_callcl 0 1 1)
  /\ regs (cur captures_from_9_at_callcl) !! 1 = Some (Closure 11 [Number 7])
  /\ regs (cur captures_from_9_at_callcl) !! (1 + 1) = Some (Number 80)
  /\ (forall mfuel,
        step loadsd test_depth captures_from_register_9 [] mfuel
             captures_from_9_at_callcl
        = Some (Running captures_from_9_in_closure))
  /\ pc captures_from_9_in_closure = 11
  /\ callers captures_from_9_in_closure = [cur captures_from_9_at_callcl]
  /\ regs (cur captures_from_9_in_closure) !! 1 = Some (Number 80)
  /\ regs (cur captures_from_9_in_closure) !! (1 + 1) = Some (Number 7)
  /\ vm_execute loadsd test_depth captures_from_register_9 [] test_fuel
     = Some (Halted (Number 73)).
Proof.
  repeat apply conj; try (intros mfuel); try (vm_compute; reflexivity).
  - apply (state_after_steps _ _ _ _ 2 6). vm_compute. reflexivity.
  - apply (state_after_steps _ _ _ _ 2 2). vm_compute. reflexivity.
Qed.

(** *** Programs ending in HALT that do not terminate *)





End ProgramFacts.

Section Witnesses.

Import Tests.
Local Open Scope nat_scope.


Example match_var_binds_on_test :
  (forall subj rs0,
      match_value 2 binds_a_value_in_a_match_table 3 (MatchVar 1) subj rs0
      = Some (MatchOk (<[3 + 1 := subj]> rs0)))
  /\ (exists rs_j,
        match_fields (match_value 1 binds_a_value_in_a_match_table 3)
                     binds_a_value_in_a_match_table 1
                     (S (Z.to_nat 6)) (S (Z.to_nat 9))
                     (regs (cur binds_a_value_at_match)) = Some (MatchOk rs_j)
        /\ match_fields (match_value 1 binds_a_value_in_a_match_table 3)
                        binds_a_value_in_a_match_table (2 - 2)
                        (S (Z.to_nat 6) + 2) (S (Z.to_nat 9) + 2)
                        (<[3 + 1 := Number 77]> rs_j)
           = Some (MatchOk (<[4 := Number 77]> (regs (cur binds_a_value_at_match)))))
  /\ ((forall j', 1 < j' -> j' < 2 -> exists fp,
          binds_a_value_in_a_match_table !! (S (Z.to_nat 6) + j') = Some fp
          /\ keeps_slot 1 fp = true) ->
      length (regs (cur binds_a_value_at_match)) = NUM_REGS ->
      <[4 := Number 77]> (regs (cur binds_a_value_at_match)) !! (3 + 1)
      = Some (Number 77)).
Proof.
  apply (match_var_binds binds_a_value_in_a_match_table 1 3 6 9 2 1 1 1
           (Number 77) (regs (cur binds_a_value_at_match))
           (<[4 := Number 77]> (regs (cur binds_a_value_at_match))));
    try reflexivity.
  lia.
Qed.

Example call_marshals_arguments_on_test :
  callers direct_call_in_callee
  = cur direct_call_at_call :: callers direct_call_at_call
  /\ exists v,
      regs (cur direct_call_at_call) !! (Z.to_nat (get_arg_r1 (op_call 0 3 1)) + 1)
      = Some v
      /\ regs (cur direct_call_in_callee) !! 1 = Some v.
Proof.
  apply (call_marshals_arguments loadsd_tagged_index test_depth directly_calls_a_function [] 1
           direct_call_at_call direct_call_in_callee (op_call 0 3 1) 1).
  - reflexivity.
  - left. reflexivity.
  - reflexivity.
  - split; [lia | vm_compute; lia].
Qed.

Example closure_call_layout_on_test :
  exists entry captured,
    Closure 9 [Number 24] = Closure entry captured
    /\ address_in (regs (cur closure_up_at_makecl))
                  (Z.to_nat (get_arg_r1 (op_makecl 0 1 1))) = Ok entry
    /\ length captured = Z.to_nat (get_arg_r2 (op_makecl 0 1 1))
    /\ pc closure_up_in_closure = entry
    /\ callers closure_up_in_closure
       = cur closure_up_at_callcl :: callers closure_up_at_callcl
    /\ forall j, j < Z.to_nat (get_arg_r2 (op_makecl 0 1 1)) ->
         exists v,
           regs (cur closure_up_at_makecl)
             !! (Z.to_nat (get_arg_r1 (op_makecl 0 1 1)) + 1 + j) = Some v
           /\ captured !! j = Some v
           /\ regs (cur closure_up_in_closure)
                !! (Z.to_nat (get_arg_r2 (op_callcl 0 1 1)) + 1 + j) = Some v.
Proof.
  apply (closure_call_layout loadsd_tagged_index test_depth calls_a_closure_upwards [] 1 1
           closure_up_at_makecl closure_up_after_makecl
           closure_up_at_callcl closure_up_in_closure
           (op_makecl 0 1 1) (op_callcl 0 1 1) (Closure 9 [Number 24]));
    reflexivity.
Qed.





End Witnesses.

(** ** More on the codec of [opcodes.h] *)

Section CodecEdges.

Import Forms.
Local Open Scope Z_scope.

(** Remove, innermost first, the reductions modulo 2^32 of sums that stay
    below 2^32. *)
Ltac no_wraps :=
  unfold add32, shl32, wrap32, instr_size, __opcb, __regb;
  rewrite ?Z.shiftl_mul_pow2 by lia;
  repeat match goal with
         | |- context [?a mod ?b] => rewrite (Z.mod_small a b) by lia
         end.

(** The construction macros when nothing is cut off at 32 bits: the plain
    sums, whatever the size of the single operands. *)
Lemma instr_ri_sum (op r0 i : Z) :
  0 <= op -> 0 <= r0 -> 0 <= i ->
  op * 2 ^ 28 + r0 * 2 ^ 23 + i < 2 ^ 32 ->
  instr_ri op r0 i = op * 2 ^ 28 + r0 * 2 ^ 23 + i.
Proof.
  intros Hop H0 Hi Hsum.
  unfold instr_ri. no_wraps. lia.
Qed.

Lemma instr_rrr_sum (op r0 r1 r2 : Z) :
  0 <= op -> 0 <= r0 -> 0 <= r1 -> 0 <= r2 ->
  op * 2 ^ 28 + r0 * 2 ^ 23 + r1 * 2 ^ 18 + r2 * 2 ^ 13 < 2 ^ 32 ->
  instr_rrr op r0 r1 r2 = op * 2 ^ 28 + r0 * 2 ^ 23 + r1 * 2 ^ 18 + r2 * 2 ^ 13.
Proof.
  intros Hop H0 H1 H2 Hsum.
  unfold instr_rrr. no_wraps. lia.
Qed.

(** X1. The opcode and the first register operand of a register-form
    word come back from [get_opcode] and [get_arg_r0] for every opcode
    value below 16 and all three register operands in 0..31, also where
    the second and third operands do not come back. *)
Theorem rrr_opcode_r0_round_trip (op r0 r1 r2 : Z) :
  0 <= op < 16 -> 0 <= r0 < 32 -> 0 <= r1 < 32 -> 0 <= r2 < 32 ->
  get_opcode (instr_rrr op r0 r1 r2) = op
  /\ get_arg_r0 (instr_rrr op r0 r1 r2) = r0.
Proof.
  intros Hop H0 H1 H2. split.
  - now apply get_opcode_instr_rrr.
  - now apply get_arg_r0_instr_rrr.
Qed.

Lemma rrr_opcode_r0_round_trip_witness :
  get_opcode (instr_rrr 13 31 31 31) = 13
  /\ get_arg_r0 (instr_rrr 13 31 31 31) = 31.
Proof. apply (rrr_opcode_r0_round_trip 13 31 31 31); lia. Defined.

(** X2. What [get_arg_r1] and [get_arg_r2] return on a register-form word
    built from legal operands: the operand modulo 8, independently of the
    other operands. *)
Theorem rrr_r1_r2_decode_mod_8 (op r0 r1 r2 : Z) :
  0 <= op < 16 -> 0 <= r0 < 32 -> 0 <= r1 < 32 -> 0 <= r2 < 32 ->
  get_arg_r1 (instr_rrr op r0 r1 r2) = r1 mod 8
  /\ get_arg_r2 (instr_rrr op r0 r1 r2) = r2 mod 8.
Proof.
  intros Hop H0 H1 H2. split.
  - now apply get_arg_r1_instr_rrr.
  - now apply get_arg_r2_instr_rrr.
Qed.

Lemma rrr_r1_r2_decode_mod_8_witness :
  get_arg_r1 (instr_rrr 8 0 19 30) = 19 mod 8
  /\ get_arg_r2 (instr_rrr 8 0 19 30) = 30 mod 8.
Proof. apply (rrr_r1_r2_decode_mod_8 8 0 19 30); lia. Defined.

(** X3. The extraction macros on any word at all: the opcode is below 16,
    the first register below 32, the immediate below 2^23, and the second
    and third registers below 8, so that no register from 8 on is ever
    decoded in those positions. *)
Theorem decoded_fields_bounds (w : Z) :
  0 <= get_opcode w < 16
  /\ 0 <= get_arg_r0 w < 32
  /\ 0 <= get_arg_r1 w < 8
  /\ 0 <= get_arg_r2 w < 8
  /\ 0 <= get_arg_i w < 2 ^ 23.
Proof.
  rewrite get_opcode_div, get_arg_r0_div, get_arg_r1_div, get_arg_r2_div,
    get_arg_i_mod.
  split; [| split; [| split; [| split]]]; apply Z.mod_pos_bound; lia.
Qed.

(** X4. [instr_rrr] itself loses nothing: on opcode values below 16 and
    register operands in 0..31, operands that differ anywhere give
    different words, also where the extraction macros return the same
    fields for both. *)
Theorem instr_rrr_injective (op r0 r1 r2 op' r0' r1' r2' : Z) :
  0 <= op < 16 -> 0 <= r0 < 32 -> 0 <= r1 < 32 -> 0 <= r2 < 32 ->
  0 <= op' < 16 -> 0 <= r0' < 32 -> 0 <= r1' < 32 -> 0 <= r2' < 32 ->
  op <> op' \/ r0 <> r0' \/ r1 <> r1' \/ r2 <> r2' ->
  instr_rrr op r0 r1 r2 <> instr_rrr op' r0' r1' r2'.
Proof.
  intros Hop H0 H1 H2 Hop' H0' H1' H2' Hne Heq.
  rewrite !instr_rrr_value in Heq by assumption. lia.
Qed.

Lemma instr_rrr_injective_witness :
  instr_rrr 5 0 8 9 <> instr_rrr 5 0 0 1
  /\ get_arg_r1 (instr_rrr 5 0 8 9) = get_arg_r1 (instr_rrr 5 0 0 1)
  /\ get_arg_r2 (instr_rrr 5 0 8 9) = get_arg_r2 (instr_rrr 5 0 0 1).
Proof.
  split; [| split; reflexivity].
  apply (instr_rrr_injective 5 0 8 9 5 0 0 1); lia.
Defined.

(** X5. Every 32-bit word is the immediate-form word of its own fields:
    [instr_ri] applied to what [get_opcode], [get_arg_r0] and [get_arg_i]
    extract gives the word back. *)
Theorem instr_ri_rebuilds_word (w : Z) :
  0 <= w < 2 ^ 32 ->
  instr_ri (get_opcode w) (get_arg_r0 w) (get_arg_i w) = w.
Proof.
  intros Hw.
  rewrite get_opcode_div, get_arg_r0_div, get_arg_i_mod.
  rewrite instr_ri_value by (apply Z.mod_pos_bound; lia).
  Z.div_mod_to_equations. lia.
Qed.

Lemma instr_ri_rebuilds_word_witness :
  instr_ri (get_opcode 0xD04A6001) (get_arg_r0 0xD04A6001)
           (get_arg_i 0xD04A6001) = 0xD04A6001.
Proof. apply (instr_ri_rebuilds_word 0xD04A6001). lia. Defined.

(** X6. [instr_ri] does not check its immediate: one that is 2^23 too
    large gives the word of the next register, so the decoder reports
    register r0 + 1 and the immediate less 2^23. *)
Theorem instr_ri_immediate_overflow (op r0 i : Z) :
  0 <= op < 16 -> 0 <= r0 < 31 -> 0 <= i < 2 ^ 23 ->
  instr_ri op r0 (i + 2 ^ 23) = instr_ri op (r0 + 1) i
  /\ get_arg_r0 (instr_ri op r0 (i + 2 ^ 23)) = r0 + 1
  /\ get_arg_i (instr_ri op r0 (i + 2 ^ 23)) = i.
Proof.
  intros Hop H0 Hi.
  assert (instr_ri op r0 (i + 2 ^ 23) = instr_ri op (r0 + 1) i) as ->.
  { rewrite !instr_ri_sum by lia. lia. }
  split; [reflexivity |].
  rewrite get_arg_r0_div, get_arg_i_mod, instr_ri_value by lia.
  split; Z.div_mod_to_equations; lia.
Qed.

Lemma instr_ri_immediate_overflow_witness :
  instr_ri 1 3 (5 + 2 ^ 23) = instr_ri 1 (3 + 1) 5
  /\ get_arg_r0 (instr_ri 1 3 (5 + 2 ^ 23)) = 3 + 1
  /\ get_arg_i (instr_ri 1 3 (5 + 2 ^ 23)) = 5.
Proof. apply (instr_ri_immediate_overflow 1 3 5); lia. Defined.

(** X7. [instr_rrr] does not check its register operands: a third operand
    that is 32 too large gives the word whose second operand is one
    larger, and a second operand that is 32 too large the word whose
    first operand is one larger. *)
Theorem instr_rrr_register_overflow (op r0 r1 r2 : Z) :
  0 <= op < 16 -> 0 <= r0 < 31 -> 0 <= r1 < 31 -> 0 <= r2 < 32 ->
  instr_rrr op r0 r1 (r2 + 32) = instr_rrr op r0 (r1 + 1) r2
  /\ instr_rrr op r0 (r1 + 32) r2 = instr_rrr op (r0 + 1) r1 r2.
Proof.
  intros Hop H0 H1 H2. split; rewrite !instr_rrr_sum by lia; lia.
Qed.

Lemma instr_rrr_register_overflow_witness :
  instr_rrr 5 0 1 (2 + 32) = instr_rrr 5 0 (1 + 1) 2
  /\ instr_rrr 5 0 (1 + 32) 2 = instr_rrr 5 (0 + 1) 1 2.
Proof. apply (instr_rrr_register_overflow 5 0 1 2); lia. Defined.

(** X8. The two forms share the bits below the first register: a
    register-form word is the immediate-form word whose immediate is
    [r1 * 2^18 + r2 * 2^13], which is what [get_arg_i] returns on it; its
    13 lowest bits are zero. *)
Theorem instr_rrr_as_immediate (op r0 r1 r2 : Z) :
  0 <= op < 16 -> 0 <= r0 < 32 -> 0 <= r1 < 32 -> 0 <= r2 < 32 ->
  instr_rrr op r0 r1 r2 = instr_ri op r0 (r1 * 2 ^ 18 + r2 * 2 ^ 13)
  /\ get_arg_i (instr_rrr op r0 r1 r2) = r1 * 2 ^ 18 + r2 * 2 ^ 13
  /\ Z.land (instr_rrr op r0 r1 r2) 0x1FFF = 0.
Proof.
  intros Hop H0 H1 H2.
  change 0x1FFF with (Z.ones 13). rewrite Z.land_ones by lia.
  rewrite get_arg_i_mod, instr_rrr_value, instr_ri_value by lia.
  split; [lia |]. split; Z.div_mod_to_equations; lia.
Qed.

Lemma instr_rrr_as_immediate_witness :
  instr_rrr 13 1 2 3 = instr_ri 13 1 (2 * 2 ^ 18 + 3 * 2 ^ 13)
  /\ get_arg_i (instr_rrr 13 1 2 3) = 2 * 2 ^ 18 + 3 * 2 ^ 13
  /\ Z.land (instr_rrr 13 1 2 3) 0x1FFF = 0.
Proof. apply (instr_rrr_as_immediate 13 1 2 3); lia. Defined.

(** X9. Every [op_*] macro builds a word that [get_opcode] reads as the
    opcode of the macro, for all register operands in 0..31 and every
    immediate below 2^23. *)
Theorem op_macros_decode_to_their_opcode (r0 r1 r2 i : Z) :
  0 <= r0 < 32 -> 0 <= r1 < 32 -> 0 <= r2 < 32 -> 0 <= i < 2 ^ 23 ->
  get_opcode (op_loadi r0 i) = opcode_code OP_LOADi
  /\ get_opcode (op_loads r0 i) = opcode_code OP_LOADs
  /\ get_opcode (op_loadsd r0 i) = opcode_code OP_LOADsd
  /\ get_opcode (op_loadc r0 i) = opcode_code OP_LOADc
  /\ get_opcode (op_add r0 r1 r2) = opcode_code OP_ADD
  /\ get_opcode (op_sub r0 r1 r2) = opcode_code OP_SUB
  /\ get_opcode op_halt = opcode_code OP_HALT
  /\ get_opcode (op_move r0 r1) = opcode_code OP_MOVE
  /\ get_opcode (op_call r0 r1 r2) = opcode_code OP_CALL
  /\ get_opcode (op_callcl r0 r1 r2) = opcode_code OP_CALLCL
  /\ get_opcode op_ret = opcode_code OP_RET
  /\ get_opcode (op_makecl r0 r1 r2) = opcode_code OP_MAKECL
  /\ get_opcode (op_jmp i) = opcode_code OP_JMP
  /\ get_opcode (op_match r0 r1 r2) = opcode_code OP_MATCH.
Proof.
  intros H0 H1 H2 Hi.
  assert (forall op a n, 0 <= a < 32 -> 0 <= n < 2 ^ 23 ->
            get_opcode (instr_ri (opcode_code op) a n) = opcode_code op) as Hri.
  { intros op a n Ha Hn. pose proof (opcode_code_range op).
    rewrite get_opcode_div, instr_ri_value by lia.
    Z.div_mod_to_equations. lia. }
  assert (forall op a b c, 0 <= a < 32 -> 0 <= b < 32 -> 0 <= c < 32 ->
            get_opcode (instr_rrr (opcode_code op) a b c) = opcode_code op) as Hrrr.
  { intros op a b c Ha Hb Hc.
    apply get_opcode_instr_rrr; auto using opcode_code_range. }
  unfold op_loadi, op_loads, op_loadsd, op_loadc, op_add, op_sub, op_halt,
    op_move, op_call, op_callcl, op_ret, op_makecl, op_jmp, op_match.
  repeat apply conj;
    lazymatch goal with
    | |- get_opcode (instr_ri _ _ _) = _ => apply Hri; lia
    | |- get_opcode (instr_rrr _ _ _ _) = _ => apply Hrrr; lia
    end.
Qed.

Lemma op_macros_decode_to_their_opcode_witness :
  get_opcode (op_loadi 31 8388607) = opcode_code OP_LOADi
  /\ get_opcode (op_loads 31 8388607) = opcode_code OP_LOADs
  /\ get_opcode (op_loadsd 31 8388607) = opcode_code OP_LOADsd
  /\ get_opcode (op_loadc 31 8388607) = opcode_code OP_LOADc
  /\ get_opcode (op_add 31 31 31) = opcode_code OP_ADD
  /\ get_opcode (op_sub 31 31 31) = opcode_code OP_SUB
  /\ get_opcode op_halt = opcode_code OP_HALT
  /\ get_opcode (op_move 31 31) = opcode_code OP_MOVE
  /\ get_opcode (op_call 31 31 31) = opcode_code OP_CALL
  /\ get_opcode (op_callcl 31 31 31) = opcode_code OP_CALLCL
  /\ get_opcode op_ret = opcode_code OP_RET
  /\ get_opcode (op_makecl 31 31 31) = opcode_code OP_MAKECL
  /\ get_opcode (op_jmp 8388607) = opcode_code OP_JMP
  /\ get_opcode (op_match 31 31 31) = opcode_code OP_MATCH.
Proof.
  apply (op_macros_decode_to_their_opcode 31 31 31 8388607); lia.
Defined.

(** X10. No test of [vm_spec.c] meets the defect of the extraction macros:
    every instruction word of every test program is built again exactly
    from the fields extracted from it, with the construction macro of its
    opcode. *)
Theorem test_programs_reencode :
  Forall (Forall (fun w => reencode w = Some w)) all_test_programs.
Proof.
  unfold all_test_programs.
  repeat (constructor; [repeat (constructor; [vm_compute; reflexivity |]);
                        constructor |]).
  constructor.
Qed.

End CodecEdges.
